(** * Verification of the playlist transcript downloader (src/main.py)

    A shallow embedding of the script: the two regular expressions, the
    retry loop, the per-video processor and the statistics loop of [main],
    written over an explicit model of the outside world (transcript service,
    playlist service, file system, clock), followed by the theorems about
    them.

    Conventions of the embedding.
    - A Python [str] is a [string]; its characters are the code points
      0..255.  The one table of the interpreter the script consults for
      characters above 127 (the Unicode alphanumeric table behind [\w]) is
      a field of the environment.
    - A Python [int] is a [Z]; a Python [float] holding a number of seconds
      (time stamps, delays) is an exact rational [Q].
    - A raised exception is the [inl] of a [result]; only instances of
      Python's [Exception] are modelled, asynchronous interrupts
      (KeyboardInterrupt) are not.
    - The playlist object is the list of videos that its first reading
      gave: the later readings of [playlist.videos] in [main] are that
      list again.
    - Every call that leaves the process is recorded as an [event]. *)

From Stdlib Require Import ZArith QArith Qabs Qround String Ascii List Lia Bool.
From stdpp Require Import gmap strings list.

Local Open Scope Z_scope.
Local Open Scope string_scope.

(* ================================================================== *)
(** * Python values *)

Module Py.

(** Instances of [Exception].  [ValueError] is kept apart because
    [fetch_playlist] has a handler of its own for it. *)
Inductive exn : Type :=
| ValueError (msg : string)
| Exception (msg : string).

(** [str(e)] *)
Definition str (e : exn) : string :=
  match e with ValueError m => m | Exception m => m end.

(** [OverflowError] is one of the other instances of [Exception]. *)
Definition OverflowError (msg : string) : exn := Exception msg.

Definition result (A : Type) : Type := (exn + A)%type.

(** [s[:n]] for a non-negative [n] *)
Definition take (n : nat) (s : string) : string := substring 0 n s.

(** [range(n)]: empty when [n <= 0] *)
Definition range (n : Z) : list Z := map Z.of_nat (seq 0 (Z.to_nat n)).

(** [posixpath.join(a, b)] *)
Definition ends_with_slash (a : string) : bool :=
  match get (String.length a - 1) a with
  | Some c => Ascii.eqb c "/"
  | None => false
  end.

Definition path_join (a b : string) : string :=
  match b with
  | String "/" _ => b
  | _ => if (String.length a =? 0)%nat || ends_with_slash a
         then a ++ b else a ++ "/" ++ b
  end.

(** What [time.sleep] does with its argument before it sleeps: the number
    of seconds becomes a number of nanoseconds, rounded away from zero,
    that has to fit a signed integer of 64 bits. *)
Definition round_away (q : Q) : Z :=
  if Qlt_le_dec q 0 then Qfloor q else Qceiling q.

Definition nanoseconds (secs : Q) : Z :=
  round_away (secs * inject_Z (10 ^ 9)).

Definition fits_int64 (n : Z) : bool :=
  (- 2 ^ 63 <=? n)%Z && (n <? 2 ^ 63)%Z.

(** The two exceptions of [time.sleep]. *)
Definition sleep_overflow : exn :=
  OverflowError "timestamp too large to convert to C _PyTime_t".

Definition sleep_negative : exn :=
  ValueError "sleep length must be non-negative".

End Py.
Export Py.

(* ================================================================== *)
(** * The regular expressions of [re] that the script uses *)

Module Re.

(** An item of a bracketed character set. *)
Inductive set_item : Type :=
| Chr (c : ascii)      (* a literal, possibly written escaped *)
| Word.                (* \w *)

Inductive regex : Type :=
| Void
| Eps
| Set_ (items : list set_item)
| Seq (r1 r2 : regex)
| Alt (r1 r2 : regex)
| Star (r : regex).

Definition Lit (c : ascii) : regex := Set_ [Chr c].
Definition Opt (r : regex) : regex := Alt r Eps.      (* r? *)
Definition Plus (r : regex) : regex := Seq r (Star r). (* r+ *)

Fixpoint Str (s : string) : regex :=
  match s with
  | EmptyString => Eps
  | String c s' => Seq (Lit c) (Str s')
  end.

Section Matching.
(** [str.isalnum] on the characters above 127. *)
Variable unicode_alnum : ascii -> bool.

Definition between (lo hi : N) (c : ascii) : bool :=
  (lo <=? N_of_ascii c)%N && (N_of_ascii c <=? hi)%N.

(** [\w] on [str] patterns: alphanumeric or underscore. *)
Definition is_word (c : ascii) : bool :=
  between 48 57 c || between 65 90 c || between 97 122 c
  || Ascii.eqb c "_"
  || ((128 <=? N_of_ascii c)%N && unicode_alnum c).

Definition item_has (c : ascii) (i : set_item) : bool :=
  match i with
  | Chr c' => Ascii.eqb c c'
  | Word => is_word c
  end.

Definition set_has (items : list set_item) (c : ascii) : bool :=
  existsb (item_has c) items.

(** The language of a pattern. *)
Inductive matches : regex -> string -> Prop :=
| m_eps : matches Eps EmptyString
| m_set items c :
    set_has items c = true -> matches (Set_ items) (String c EmptyString)
| m_seq r1 r2 s1 s2 :
    matches r1 s1 -> matches r2 s2 -> matches (Seq r1 r2) (s1 ++ s2)
| m_alt_l r1 r2 s : matches r1 s -> matches (Alt r1 r2) s
| m_alt_r r1 r2 s : matches r2 s -> matches (Alt r1 r2) s
| m_star_nil r : matches (Star r) EmptyString
| m_star_app r s1 s2 :
    matches r s1 -> matches (Star r) s2 -> matches (Star r) (s1 ++ s2).

Fixpoint nullable (r : regex) : bool :=
  match r with
  | Void => false
  | Eps => true
  | Set_ _ => false
  | Seq r1 r2 => nullable r1 && nullable r2
  | Alt r1 r2 => nullable r1 || nullable r2
  | Star _ => true
  end.

Fixpoint deriv (c : ascii) (r : regex) : regex :=
  match r with
  | Void => Void
  | Eps => Void
  | Set_ items => if set_has items c then Eps else Void
  | Seq r1 r2 =>
      if nullable r1
      then Alt (Seq (deriv c r1) r2) (deriv c r2)
      else Seq (deriv c r1) r2
  | Alt r1 r2 => Alt (deriv c r1) (deriv c r2)
  | Star r' => Seq (deriv c r') (Star r')
  end.

(** [re.fullmatch(r, s) is not None] *)
Fixpoint fullmatch (r : regex) (s : string) : bool :=
  match s with
  | EmptyString => nullable r
  | String c s' => fullmatch (deriv c r) s'
  end.

(** [re.match(r, s) is not None]: the pattern is anchored at the start
    of [s] only, so it succeeds as soon as some prefix of [s] is in the
    language. *)
Fixpoint match_ (r : regex) (s : string) : bool :=
  nullable r ||
  match s with
  | EmptyString => false
  | String c s' => match_ (deriv c r) s'
  end.

(** [re.sub(r, repl, s)] for a pattern [r] that is one character set:
    the non-overlapping matches are exactly the characters of the set. *)
Fixpoint sub_set (items : list set_item) (repl : string) (s : string)
  : string :=
  match s with
  | EmptyString => EmptyString
  | String c s' =>
      (if set_has items c then repl else String c EmptyString)
        ++ sub_set items repl s'
  end.

End Matching.

End Re.

(* ================================================================== *)
(** * [validate_playlist_url] and [sanitize_filename] *)

(** The pattern (https?://)?(www\.)?(youtube\.com/playlist\?list=|youtu\.be/)[\w-]+
    of [validate_playlist_url]. *)
Definition playlist_pattern : Re.regex :=
  Re.Seq (Re.Opt (Re.Seq (Re.Str "http")
                         (Re.Seq (Re.Opt (Re.Lit "s")) (Re.Str "://"))))
 (Re.Seq (Re.Opt (Re.Str "www."))
 (Re.Seq (Re.Alt (Re.Str "youtube.com/playlist?list=") (Re.Str "youtu.be/"))
         (Re.Plus (Re.Set_ [Re.Word; Re.Chr "-"])))).

Definition validate_playlist_url (unicode_alnum : ascii -> bool)
    (url : string) : result string :=
  if negb (Re.match_ unicode_alnum playlist_pattern url)
  then inl (ValueError ("Invalid playlist URL format: " ++ url))
  else inr url.

(** The bracketed set of the pattern of [sanitize_filename]: backslash
    (written escaped), slash, star, question mark, colon, double quote
    (code 34), less, greater, bar. *)
Definition illegal_chars : list ascii :=
  ["\"; "/"; "*"; "?"; ":"; "034"; "<"; ">"; "|"]%char.

Definition illegal_set : list Re.set_item := map Re.Chr illegal_chars.

(** No item of the set is [\w], so the table of the interpreter is never
    consulted: any table gives the same function. *)
Definition sanitize_filename (title : string) : string :=
  Re.sub_set (fun _ => false) illegal_set "_" title.

(* ================================================================== *)
(** * Data of the script *)

(** The class [Config]: the values read from the environment variables
    when the module is imported. *)
Record Config : Type := {
  PLAYLIST_URL : string;
  OUTPUT_FOLDER : string;
  RETRY_ATTEMPTS : Z;
  RATE_LIMIT_DELAY : Q;
  USE_PROXY : bool;
  PROXY_USER : option string;
  PROXY_PASS : option string
}.

(** The dataclass [DownloadStats]. *)
Record DownloadStats : Type := {
  total : Z;
  success : Z;
  skipped : Z;
  failed : Z
}.

(** A video of the playlist.  [video_id] is a plain attribute; [title] is
    a property that asks the remote service and may raise (the object
    caches it, so every access of one object gives the same answer). *)
Record Video : Type := {
  video_id : string;
  title : result string
}.

(** A configured [YouTubeTranscriptApi]. *)
Inductive YtApi : Type :=
| ApiDirect
| ApiProxy (user pass : string).

(** A fetched transcript: the text of its snippets. *)
Definition transcript : Type := list string.

Inductive level : Type := INFO | WARNING | ERROR.

(** One constructor per call of the logger, carrying the values its
    format string interpolates. *)
Inductive message : Type :=
| MsgRule (newline : bool) (c : ascii)       (* c * 60 *)
| MsgBanner
| MsgOutputDir (folder : string)
| MsgProxyNoCredentials
| MsgProxyRequired
| MsgProxyHint
| MsgApiProxy
| MsgApiNoProxy
| MsgRateLimitNote
| MsgProxyError (e : string)
| MsgFetchingPlaylist (url : string)
| MsgFound (n : Z)
| MsgInvalid (e : string)
| MsgPlaylistError (e : string)
| MsgRetry (attempt max_retries wait_time : Z) (e : string)
| MsgNoTranscript (max_retries : Z)
| MsgSkipping (index total : Z) (title : string)
| MsgProcessing (index total : Z) (title : string)
| MsgSaved
| MsgVideoError (index total : Z) (e : string)
| MsgStarting
| MsgSummaryHeader
| MsgTotalVideos (n : Z)
| MsgSuccessful (n : Z)
| MsgSkipped (n : Z)
| MsgFailed (n : Z)
| MsgSuccessRate (percent : Q)
| MsgOutput (folder : string)
| MsgComplete
| MsgUnexpected (e : string).

(** What the process does to the outside world, in order. *)
Inductive event : Type :=
| EvLog (lvl : level) (msg : message)
| EvMakedirs (path : string)
| EvNewApi
| EvNewProxyApi (user pass : string)
| EvListPlaylist (url : string)
| EvFetch (video : string) (languages : option (list string))
| EvExists (path : string)
| EvGetmtime (path : string)
| EvWrite (path text : string)
| EvTime
| EvSleep (secs : Q).

(** The outside world, with state [W]: the libraries and system calls the
    script relies on and that are not part of it. *)
Record Env (W : Type) : Type := {
  unicode_alnum : ascii -> bool;
  (* YouTubeTranscriptApi() *)
  new_api : W -> result unit * W;
  (* YouTubeTranscriptApi(proxy_config=WebshareProxyConfig(...)) *)
  new_proxy_api : string -> string -> W -> result unit * W;
  (* yt_api.fetch(video_id) and yt_api.fetch(video_id, languages=...) *)
  api_fetch : YtApi -> string -> option (list string) -> W
              -> result transcript * W;
  (* formatters.TextFormatter().format_transcript *)
  format_transcript : transcript -> result string;
  (* Playlist(url).videos *)
  playlist_videos : string -> W -> result (list Video) * W;
  (* os.makedirs(path, exist_ok=True) *)
  makedirs : string -> W -> result unit * W;
  (* os.path.exists *)
  path_exists : string -> W -> bool * W;
  (* os.path.getmtime *)
  getmtime : string -> W -> result Q * W;
  (* with open(path, w, encoding=utf-8) as f: f.write(text) *)
  write_file : string -> string -> W -> result unit * W;
  (* time.time() *)
  time_now : W -> Q * W;
  (* the passing of [secs] seconds in time.sleep(secs) *)
  sleep_for : Q -> W -> W
}.

Arguments unicode_alnum {W} _ _.
Arguments new_api {W} _ _.
Arguments new_proxy_api {W} _ _ _ _.
Arguments api_fetch {W} _ _ _ _ _.
Arguments format_transcript {W} _ _.
Arguments playlist_videos {W} _ _ _.
Arguments makedirs {W} _ _ _.
Arguments path_exists {W} _ _ _.
Arguments getmtime {W} _ _ _.
Arguments write_file {W} _ _ _ _.
Arguments time_now {W} _ _.
Arguments sleep_for {W} _ _ _.

(* ================================================================== *)
(** * The monad of the script: world, exceptions and the trace *)

Module Run.

(** The outcome of running a piece of code: what it returned or raised,
    the world it left, and the events it caused. *)
Record outcome (W A : Type) : Type := Outcome {
  value : result A;
  world : W;
  trace : list event
}.
Arguments Outcome {W A} _ _ _.
Arguments value {W A} _.
Arguments world {W A} _.
Arguments trace {W A} _.

Definition M (W A : Type) : Type := W -> outcome W A.

Definition ret {W A} (a : A) : M W A := fun w => Outcome (inr a) w [].

Definition raise {W A} (e : exn) : M W A := fun w => Outcome (inl e) w [].

Definition bind {W A B} (m : M W A) (k : A -> M W B) : M W B :=
  fun w =>
    match m w with
    | Outcome (inl e) w1 t1 => Outcome (inl e) w1 t1
    | Outcome (inr a) w1 t1 =>
        match k a w1 with
        | Outcome r w2 t2 => Outcome r w2 (t1 ++ t2)
        end
    end.

(** try: [m]  except Exception as e: [h e] *)
Definition try_except {W A} (m : M W A) (h : exn -> M W A) : M W A :=
  fun w =>
    match m w with
    | Outcome (inl e) w1 t1 =>
        match h e w1 with
        | Outcome r w2 t2 => Outcome r w2 (t1 ++ t2)
        end
    | Outcome (inr a) w1 t1 => Outcome (inr a) w1 t1
    end.

(** A value or exception that needs no call to the world. *)
Definition lift {W A} (r : result A) : M W A :=
  fun w => Outcome r w [].

(** One call to the world, recorded. *)
Definition call {W A} (ev : event) (f : W -> result A * W) : M W A :=
  fun w => let '(r, w') := f w in Outcome r w' [ev].

Definition emit {W} (ev : event) : M W unit :=
  fun w => Outcome (inr tt) w [ev].

(** for x in xs: body, where the body may execute [return v]
    ([Some v]) or fall through to the next iteration ([None]). *)
Fixpoint for_return {W A R} (xs : list A) (body : A -> M W (option R))
  : M W (option R) :=
  match xs with
  | [] => ret None
  | x :: xs' =>
      bind (body x) (fun r =>
        match r with
        | Some v => ret (Some v)
        | None => for_return xs' body
        end)
  end.

(** for x in xs: body, where the body updates the local state [s]. *)
Fixpoint for_fold {W A S} (xs : list A) (body : S -> A -> M W S) (s : S)
  : M W S :=
  match xs with
  | [] => ret s
  | x :: xs' => bind (body s x) (for_fold xs' body)
  end.

End Run.
Export Run.

(** The notations [x ← m; k] and [m;; k] of stdpp. *)
#[global] Instance M_ret {W} : MRet (M W) := fun A => @ret W A.
#[global] Instance M_bind {W} : MBind (M W) := fun A B k m => @bind W A B m k.

(** enumerate(xs, start) *)
Fixpoint enumerate {A} (xs : list A) (start : Z) : list (Z * A) :=
  match xs with
  | [] => []
  | x :: xs' => (start, x) :: enumerate xs' (start + 1)
  end.

(* ================================================================== *)
(** * The script *)

Section Script.
Context {W : Type}.
Variable env : Env W.
Variable cfg : Config.

(** ** Calls to the world *)

Definition log (lvl : level) (msg : message) : M W unit :=
  emit (EvLog lvl msg).

(** time.sleep(secs) raises OverflowError when the length does not fit
    the nanoseconds of the interpreter, ValueError when it is negative,
    and sleeps otherwise. *)
Definition sleep (secs : Q) : M W unit :=
  if negb (fits_int64 (nanoseconds secs))
  then raise sleep_overflow
  else if (nanoseconds secs <? 0)%Z
  then raise sleep_negative
  else call (EvSleep secs) (fun w => (inr tt, sleep_for env secs w)).

Definition fetch (yt_api : YtApi) (video : string)
    (languages : option (list string)) : M W transcript :=
  call (EvFetch video languages) (api_fetch env yt_api video languages).

Definition exists_ (path : string) : M W bool :=
  call (EvExists path)
       (fun w => let '(b, w') := path_exists env path w in (inr b, w')).

Definition getmtime_ (path : string) : M W Q :=
  call (EvGetmtime path) (getmtime env path).

Definition time_ : M W Q :=
  call EvTime (fun w => let '(t, w') := time_now env w in (inr t, w')).

Definition write (path text : string) : M W unit :=
  call (EvWrite path text) (write_file env path text).

(** ** DownloadStats.print_summary *)

Definition print_summary (self : DownloadStats) : M W unit :=
  log INFO (MsgRule true "=");;
  log INFO MsgSummaryHeader;;
  log INFO (MsgTotalVideos (total self));;
  log INFO (MsgSuccessful (success self));;
  log INFO (MsgSkipped (skipped self));;
  log INFO (MsgFailed (failed self));;
  (if (0 <? total self)%Z
   then
     let success_rate :=
       (inject_Z (success self + skipped self) / inject_Z (total self)
        * 100)%Q in
     log INFO (MsgSuccessRate success_rate)
   else mret tt);;
  log INFO (MsgOutput (OUTPUT_FOLDER cfg));;
  log INFO (MsgRule false "=").

(** ** fetch_transcript_with_retry *)

Definition english : option (list string) := Some ["en"; "en-US"].

(** The body of the loop, for one value of [attempt].  [Some v] is a
    [return v]; [None] falls through to the next iteration. *)
Definition retry_body (yt_api : YtApi) (video : string)
    (max_retries attempt : Z) : M W (option (option transcript)) :=
  try_except
    (t ← fetch yt_api video english; mret (Some (Some t)))
    (fun e =>
       if (attempt =? max_retries - 1)%Z
       then
         try_except
           (t ← fetch yt_api video None; mret (Some (Some t)))
           (fun _ =>
              log ERROR (MsgNoTranscript max_retries);;
              mret (Some None))
       else
         let wait_time := 2 ^ attempt in
         log WARNING
             (MsgRetry (attempt + 1) max_retries wait_time
                       (take 50 (str e)));;
         sleep (inject_Z wait_time);;
         mret None).

Definition fetch_transcript_with_retry (yt_api : YtApi) (video : string)
    (max_retries : option Z) : M W (option transcript) :=
  let max_retries := default (RETRY_ATTEMPTS cfg) max_retries in
  r ← for_return (range max_retries) (retry_body yt_api video max_retries);
  match r with
  | Some v => mret v
  | None => mret None
  end.

(** ** initialize_api *)

(** [not s] for an optional string: None and the empty string. *)
Definition falsy (s : option string) : bool :=
  match s with
  | None => true
  | Some EmptyString => true
  | Some _ => false
  end.

Definition initialize_api : M W (option YtApi) :=
  if USE_PROXY cfg then
    if falsy (PROXY_USER cfg) || falsy (PROXY_PASS cfg) then
      log ERROR MsgProxyNoCredentials;;
      log INFO MsgProxyRequired;;
      log INFO MsgProxyHint;;
      mret None
    else
      let user := default EmptyString (PROXY_USER cfg) in
      let pass := default EmptyString (PROXY_PASS cfg) in
      try_except
        (call (EvNewProxyApi user pass) (new_proxy_api env user pass);;
         log INFO MsgApiProxy;;
         mret (Some (ApiProxy user pass)))
        (fun e => log ERROR (MsgProxyError (str e));; mret None)
  else
    log INFO MsgApiNoProxy;;
    log WARNING MsgRateLimitNote;;
    call EvNewApi (new_api env);;
    mret (Some ApiDirect).

(** ** fetch_playlist: the playlist object is its list of videos *)

Definition fetch_playlist (url : string) : M W (option (list Video)) :=
  try_except
    (validated_url ← lift (validate_playlist_url (unicode_alnum env) url);
     log INFO (MsgFetchingPlaylist validated_url);;
     playlist ← call (EvListPlaylist validated_url)
                     (playlist_videos env validated_url);
     log INFO (MsgFound (Z.of_nat (length playlist)));;
     mret (Some playlist))
    (fun e =>
       match e with
       | ValueError _ => log ERROR (MsgInvalid (str e));; mret None
       | Exception _ => log ERROR (MsgPlaylistError (str e));; mret None
       end).

(** ** process_video *)

(** The block under [try]. *)
Definition process_video_try (yt_api : YtApi) (video : Video)
    (index total : Z) (output_folder : string) : M W bool :=
  let video_id := video_id video in
  raw_title ← lift (title video);
  let title := sanitize_filename raw_title in
  let filename := "[" ++ video_id ++ "] - " ++ title ++ ".txt" in
  let output_path := path_join output_folder filename in
  already ← exists_ output_path;
  if (already : bool) then
    log INFO (MsgSkipping index total (take 50 title));;
    mret true
  else
    log INFO (MsgProcessing index total (take 50 title));;
    transcript_data ← fetch_transcript_with_retry yt_api video_id None;
    match transcript_data with
    | None => mret false
    | Some data =>
        formatted_text ← lift (format_transcript env data);
        write output_path formatted_text;;
        log INFO MsgSaved;;
        sleep (RATE_LIMIT_DELAY cfg);;
        mret true
    end.

Definition process_video (yt_api : YtApi) (video : Video)
    (index total : Z) (output_folder : string) : M W bool :=
  try_except
    (process_video_try yt_api video index total output_folder)
    (fun e =>
       log ERROR (MsgVideoError index total (take 80 (str e)));;
       mret false).

(** ** main *)

Definition add_success (s : DownloadStats) : DownloadStats :=
  {| total := total s; success := success s + 1;
     skipped := skipped s; failed := failed s |}.
Definition add_skipped (s : DownloadStats) : DownloadStats :=
  {| total := total s; success := success s;
     skipped := skipped s + 1; failed := failed s |}.
Definition add_failed (s : DownloadStats) : DownloadStats :=
  {| total := total s; success := success s;
     skipped := skipped s; failed := failed s + 1 |}.

(** The body of the loop of [main] for one video: [stats] is the
    object the loop mutates. *)
Definition main_body (yt_api : YtApi) (n_videos : Z)
    (stats : DownloadStats) (iv : Z * Video) : M W DownloadStats :=
  let '(i, video) := iv in
  ok ← process_video yt_api video i n_videos (OUTPUT_FOLDER cfg);
  if (ok : bool) then
    let video_id := video_id video in
    raw_title ← lift (title video);
    let title := sanitize_filename raw_title in
    let filename := "[" ++ video_id ++ "] - " ++ title ++ ".txt" in
    let output_path := path_join (OUTPUT_FOLDER cfg) filename in
    present ← exists_ output_path;
    if (present : bool) then
      mod_time ← getmtime_ output_path;
      now ← time_;
      if Qlt_le_dec (now - mod_time) 5
      then mret (add_success stats)
      else mret (add_skipped stats)
    else mret stats
  else mret (add_failed stats).

(** The loop of [main].  [videos] is the list that [fetch_playlist] read:
    the script reads [playlist.videos] again for the total, for the loop
    and for each index line, and the embedding takes every such reading
    to give that list. *)
Definition main_loop (yt_api : YtApi) (videos : list Video)
  : M W DownloadStats :=
  let n_videos := Z.of_nat (length videos) in
  for_fold (enumerate videos 1) (main_body yt_api n_videos)
           {| total := n_videos; success := 0; skipped := 0; failed := 0 |}.

Definition main : M W unit :=
  log INFO (MsgRule false "=");;
  log INFO MsgBanner;;
  log INFO (MsgRule false "=");;
  call (EvMakedirs (OUTPUT_FOLDER cfg)) (makedirs env (OUTPUT_FOLDER cfg));;
  log INFO (MsgOutputDir (OUTPUT_FOLDER cfg));;
  yt_api ← initialize_api;
  match yt_api with
  | None => mret tt
  | Some yt_api =>
      playlist ← fetch_playlist (PLAYLIST_URL cfg);
      match playlist with
      | None => mret tt
      | Some videos =>
          log INFO MsgStarting;;
          log INFO (MsgRule false "-");;
          stats ← main_loop yt_api videos;
          log INFO (MsgRule false "-");;
          print_summary stats;;
          log INFO MsgComplete
      end
  end.

(** The guarded call at the end of the file. *)
Definition script : M W unit :=
  try_except main (fun e => log ERROR (MsgUnexpected (str e))).

End Script.

(* ================================================================== *)
(** * A reference world

    An instance of [Env] to run the script on: a folder of files with
    their modification times, a clock that only [time.sleep] advances, a
    transcript service that answers from a table indexed by the number of
    earlier requests, and another process that may change the folder
    between two looks at it. *)

Module Sim.

Record state : Type := State {
  files : gmap string (string * Q);
  clock : Q;
  requests : nat;     (* fetches made so far *)
  looks : nat         (* existence checks made so far *)
}.

Definition newline : string := String "010" EmptyString.

(** TextFormatter: the snippets joined by newlines. *)
Definition text_formatter (t : transcript) : result string :=
  inr (String.concat newline t).

Section Env.
Variable service :
  nat -> YtApi -> string -> option (list string) -> result transcript.
Variable listing : string -> result (list Video).
Variable rival : nat -> gmap string (string * Q) -> gmap string (string * Q).

Definition sim_fetch (api : YtApi) (video : string)
    (languages : option (list string)) (w : state)
  : result transcript * state :=
  (service (requests w) api video languages,
   State (files w) (clock w) (S (requests w)) (looks w)).

Definition sim_exists (path : string) (w : state) : bool * state :=
  let fs := rival (looks w) (files w) in
  (match fs !! path with Some _ => true | None => false end,
   State fs (clock w) (requests w) (S (looks w))).

Definition sim_getmtime (path : string) (w : state) : result Q * state :=
  (match files w !! path with
   | Some (_, mtime) => inr mtime
   | None => inl (Exception "FileNotFoundError")
   end, w).

Definition sim_write (path text : string) (w : state)
  : result unit * state :=
  (inr tt,
   State (<[path := (text, clock w)]> (files w))
         (clock w) (requests w) (looks w)).

Definition sim_sleep (secs : Q) (w : state) : state :=
  State (files w) (clock w + secs)%Q (requests w) (looks w).

Definition sim_env : Env state := {|
  unicode_alnum := fun _ => false;
  new_api := fun w => (inr tt, w);
  new_proxy_api := fun _ _ w => (inr tt, w);
  api_fetch := sim_fetch;
  format_transcript := text_formatter;
  playlist_videos := fun url w => (listing url, w);
  makedirs := fun _ w => (inr tt, w);
  path_exists := sim_exists;
  getmtime := sim_getmtime;
  write_file := sim_write;
  time_now := fun w => (clock w, w);
  sleep_for := sim_sleep
|}.
End Env.

(** Nobody else touches the folder. *)
Definition alone : nat -> gmap string (string * Q) -> gmap string (string * Q) :=
  fun _ fs => fs.

(** A service that is down. *)
Definition down : nat -> YtApi -> string -> option (list string)
                  -> result transcript :=
  fun _ _ _ _ => inl (Exception "TranscriptsDisabled").

Definition default_config : Config := {|
  PLAYLIST_URL :=
    "https://www.youtube.com/playlist?list=PLxbwE86jKRgMpuZuLBivzlM8s2Dk5lXBQ";
  OUTPUT_FOLDER := "transcripts";
  RETRY_ATTEMPTS := 3;
  RATE_LIMIT_DELAY := 1 # 2;
  USE_PROXY := false;
  PROXY_USER := None;
  PROXY_PASS := None
|}.

Definition start (fs : gmap string (string * Q)) (now : Q) : state :=
  State fs now 0 0.

(** [w'] has the files of [w], each with the content and the modification
    time it has in [w]. *)
Definition keeps (w w' : state) : Prop := files w ⊆ files w'.

End Sim.

(* ================================================================== *)
(** * Observations on traces *)

Definition is_fetch (ev : event) : bool :=
  match ev with EvFetch _ _ => true | _ => false end.

Definition is_write (ev : event) : bool :=
  match ev with EvWrite _ _ => true | _ => false end.

Definition is_listing (ev : event) : bool :=
  match ev with EvListPlaylist _ => true | _ => false end.

(** The fetch that prefers English: one per attempt of the retry loop. *)
Definition is_attempt (ev : event) : bool :=
  match ev with EvFetch _ (Some _) => true | _ => false end.

(** The lines that [print_summary] logs. *)
Definition is_summary (ev : event) : bool :=
  match ev with
  | EvLog _ MsgSummaryHeader | EvLog _ (MsgTotalVideos _)
  | EvLog _ (MsgSuccessful _) | EvLog _ (MsgSkipped _)
  | EvLog _ (MsgFailed _) | EvLog _ (MsgSuccessRate _)
  | EvLog _ (MsgOutput _) => true
  | _ => false
  end.

(** The four lines of the summary that report a counter. *)
Definition is_counter (ev : event) : bool :=
  match ev with
  | EvLog _ (MsgTotalVideos _) | EvLog _ (MsgSuccessful _)
  | EvLog _ (MsgSkipped _) | EvLog _ (MsgFailed _) => true
  | _ => false
  end.

(** What only the processing of a video causes. *)
Definition is_per_item (ev : event) : bool :=
  match ev with
  | EvFetch _ _ | EvExists _ | EvGetmtime _ | EvWrite _ _ | EvTime
  | EvSleep _ => true
  | EvLog _ (MsgRetry _ _ _ _) | EvLog _ (MsgNoTranscript _)
  | EvLog _ (MsgSkipping _ _ _) | EvLog _ (MsgProcessing _ _ _)
  | EvLog _ MsgSaved | EvLog _ (MsgVideoError _ _ _) => true
  | _ => false
  end.

(** What the run does before it has a playlist: no work on a video, no
    line of the summary, no request to the playlist service. *)
Definition is_setup (ev : event) : bool :=
  negb (is_per_item ev || is_summary ev || is_listing ev).

Definition attempts (tr : list event) : nat :=
  length (List.filter is_attempt tr).

(** The sleep, if any, between attempt [k - 1] (or the start of the trace)
    and attempt [k], attempts counted from 0: [last] is the sleep seen
    since the previous attempt. *)
Fixpoint wait_before_from (last : option Q) (k : nat) (tr : list event)
  : option Q :=
  match tr with
  | [] => None
  | EvSleep secs :: tr' => wait_before_from (Some secs) k tr'
  | EvFetch _ (Some _) :: tr' =>
      match k with
      | O => last
      | S k' => wait_before_from None k' tr'
      end
  | _ :: tr' => wait_before_from last k tr'
  end.

Definition wait_before (k : nat) (tr : list event) : option Q :=
  wait_before_from None k tr.

(** The sleeps of a trace, in order. *)
Definition waits (tr : list event) : list Q :=
  flat_map (fun ev => match ev with EvSleep s => [s] | _ => [] end) tr.

(** The counters a trace reports in its summary lines. *)
Definition logged (pick : message -> option Z) (tr : list event) : option Z :=
  head (flat_map (fun ev =>
                    match ev with
                    | EvLog _ m =>
                        match pick m with Some n => [n] | None => [] end
                    | _ => []
                    end) tr).

Definition reported (tr : list event) : option DownloadStats :=
  match logged (fun m => match m with MsgTotalVideos n => Some n | _ => None end) tr,
        logged (fun m => match m with MsgSuccessful n => Some n | _ => None end) tr,
        logged (fun m => match m with MsgSkipped n => Some n | _ => None end) tr,
        logged (fun m => match m with MsgFailed n => Some n | _ => None end) tr
  with
  | Some t, Some s, Some k, Some f =>
      Some {| total := t; success := s; skipped := k; failed := f |}
  | _, _, _, _ => None
  end.

(** [a] is within [d] of [b]. *)
Definition within (d a b : Q) : Prop := (Qabs (a - b) <= d)%Q.

Definition is_sleep (ev : event) : bool :=
  match ev with EvSleep _ => true | _ => false end.

(** The traces of exponential backoff from attempt [a] on: an attempt,
    then either the end of the loop (with at most a fallback fetch and a
    log line) or a warning, a sleep of [2 ^ a] seconds and the backoff
    from attempt [a + 1]. *)
Inductive backoff (video : string) : Z -> list event -> Prop :=
| backoff_stop a tail :
    Forall (fun ev => is_attempt ev = false /\ is_sleep ev = false) tail ->
    backoff video a (EvFetch video english :: tail)
| backoff_wait a m tr :
    backoff video (a + 1) tr ->
    backoff video a (EvFetch video english :: EvLog WARNING m
                     :: EvSleep (inject_Z (2 ^ a)) :: tr).

(** The path of the transcript of a video with identifier [video_id]
    and (raw) title [title] under [folder]. *)
Definition target (folder video_id title : string) : string :=
  path_join folder
    ("[" ++ video_id ++ "] - " ++ sanitize_filename title ++ ".txt").

(* ================================================================== *)
(** * Runs of the script on the reference world *)

Module Scenario.
Import Sim.

Definition with_retries (n : Z) (cfg : Config) : Config := {|
  PLAYLIST_URL := PLAYLIST_URL cfg;
  OUTPUT_FOLDER := OUTPUT_FOLDER cfg;
  RETRY_ATTEMPTS := n;
  RATE_LIMIT_DELAY := RATE_LIMIT_DELAY cfg;
  USE_PROXY := USE_PROXY cfg;
  PROXY_USER := PROXY_USER cfg;
  PROXY_PASS := PROXY_PASS cfg
|}.

Definition with_url (url : string) (cfg : Config) : Config := {|
  PLAYLIST_URL := url;
  OUTPUT_FOLDER := OUTPUT_FOLDER cfg;
  RETRY_ATTEMPTS := RETRY_ATTEMPTS cfg;
  RATE_LIMIT_DELAY := RATE_LIMIT_DELAY cfg;
  USE_PROXY := USE_PROXY cfg;
  PROXY_USER := PROXY_USER cfg;
  PROXY_PASS := PROXY_PASS cfg
|}.

Definition no_videos : string -> result (list Video) := fun _ => inr [].

(** The transcript service is down and nobody else touches the folder. *)
Definition down_env : Env state := sim_env down no_videos alone.

(** The retry function on a service that is down, with [n] attempts
    configured. *)
Definition exhausted (n : Z) : outcome state (option transcript) :=
  fetch_transcript_with_retry down_env (with_retries n default_config)
    ApiDirect "dQw4w9WgXcQ" None (start ∅ 0).

(** A video whose title has characters to replace, and one whose title
    cannot be read. *)
Definition video_a : Video :=
  {| video_id := "a"; title := inr "Intro: part 1/2" |}.


(** The output folder with the transcript of [video_a] written at time
    [mtime]. *)
Definition folder_with (mtime : Q) : gmap string (string * Q) :=
  {[ target "transcripts" "a" "Intro: part 1/2" := ("old text", mtime) ]}.

Definition one_video : DownloadStats :=
  {| total := 1; success := 0; skipped := 0; failed := 0 |}.


(** A playlist of three videos: the transcript of the first is in the
    folder already, the service has a transcript for the second only. *)
Definition video_c : Video := {| video_id := "c"; title := inr "Subnetting" |}.
Definition video_d : Video := {| video_id := "d"; title := inr "Routing" |}.

Definition three_videos : string -> result (list Video) :=
  fun _ => inr [video_a; video_c; video_d].

Definition only_c : nat -> YtApi -> string -> option (list string)
                    -> result transcript :=
  fun _ _ video _ =>
    if String.eqb video "c" then inr ["hello"; "world"]
    else inl (Exception "NoTranscriptFound").

Definition three_env : Env state := sim_env only_c three_videos alone.



End Scenario.

(** What [sanitize_filename] is to do with one character. *)
Definition clean (c : ascii) : ascii :=
  if bool_decide (c ∈ illegal_chars) then "_"%char else c.

(* ================================================================== *)
(** * Further observations *)

(** A pattern with an empty language, by its shape. *)
Fixpoint dead (r : Re.regex) : bool :=
  match r with
  | Re.Void => true
  | Re.Seq r1 r2 => dead r1 || dead r2
  | Re.Alt r1 r2 => dead r1 && dead r2
  | _ => false
  end.

(** The first character of a string that the playlist pattern can match:
    the h of the scheme, the w of www or the y of the host. *)
Definition may_start (url : string) : bool :=
  match url with
  | EmptyString => false
  | String c _ => existsb (Ascii.eqb c) ["h"; "w"; "y"]%char
  end.

(** A playlist or video identifier as the pattern reads it. *)
Definition is_id_char (ua : ascii -> bool) (c : ascii) : bool :=
  Re.is_word ua c || Ascii.eqb c "-".


(** More runs on the reference world. *)
Module Scenario2.
Import Sim.



(** The default configuration with a negative pause. *)
Definition hasty_config : Config := {|
  PLAYLIST_URL := PLAYLIST_URL default_config;
  OUTPUT_FOLDER := OUTPUT_FOLDER default_config;
  RETRY_ATTEMPTS := RETRY_ATTEMPTS default_config;
  RATE_LIMIT_DELAY := - (1 # 2);
  USE_PROXY := false;
  PROXY_USER := None;
  PROXY_PASS := None
|}.

(** Proxy switched on, user name given, password missing. *)
Definition proxy_without_password : Config := {|
  PLAYLIST_URL := PLAYLIST_URL default_config;
  OUTPUT_FOLDER := OUTPUT_FOLDER default_config;
  RETRY_ATTEMPTS := RETRY_ATTEMPTS default_config;
  RATE_LIMIT_DELAY := RATE_LIMIT_DELAY default_config;
  USE_PROXY := true;
  PROXY_USER := Some "user";
  PROXY_PASS := None
|}.

(** The playlist service answers with an error. *)
Definition unlisted : string -> result (list Video) :=
  fun _ => inl (Exception "HTTP Error 404").

Definition unlisted_env : Env state := sim_env down unlisted alone.

(** Three videos and a service that is down. *)
Definition down_three_env : Env state :=
  sim_env down Scenario.three_videos alone.

(** The output folder cannot be made. *)
Definition read_only_env : Env state := {|
  unicode_alnum := unicode_alnum Scenario.down_env;
  new_api := new_api Scenario.down_env;
  new_proxy_api := new_proxy_api Scenario.down_env;
  api_fetch := api_fetch Scenario.down_env;
  format_transcript := format_transcript Scenario.down_env;
  playlist_videos := playlist_videos Scenario.down_env;
  makedirs := fun _ w => (inl (Exception "PermissionError"), w);
  path_exists := path_exists Scenario.down_env;
  getmtime := getmtime Scenario.down_env;
  write_file := write_file Scenario.down_env;
  time_now := time_now Scenario.down_env;
  sleep_for := sleep_for Scenario.down_env
|}.

(** The file that was seen is gone when its time is asked for. *)
Definition vanishing_env : Env state := {|
  unicode_alnum := unicode_alnum Scenario.three_env;
  new_api := new_api Scenario.three_env;
  new_proxy_api := new_proxy_api Scenario.three_env;
  api_fetch := api_fetch Scenario.three_env;
  format_transcript := format_transcript Scenario.three_env;
  playlist_videos := playlist_videos Scenario.three_env;
  makedirs := makedirs Scenario.three_env;
  path_exists := path_exists Scenario.three_env;
  getmtime := fun _ w => (inl (Exception "FileNotFoundError"), w);
  write_file := write_file Scenario.three_env;
  time_now := time_now Scenario.three_env;
  sleep_for := sleep_for Scenario.three_env
|}.







End Scenario2.

(** The code [m] run in the world [w] returns: it raises nothing. *)
Definition returns {W A : Type} (m : M W A) (w : W) : Prop :=
  exists a, value (m w) = inr a.


(** A success rate, when logged, is a percentage. *)
Definition rate_in_range (ev : event) : Prop :=
  match ev with
  | EvLog _ (MsgSuccessRate percent) => (0 <= percent /\ percent <= 100)%Q
  | _ => True
  end.

(* ================================================================== *)
(** * Strings *)

Section StringFacts.

Lemma append_nil (s : string) : EmptyString ++ s = s.
Proof. reflexivity. Qed.

Lemma append_cons (c : ascii) (s t : string) :
  String c s ++ t = String c (s ++ t).
Proof. reflexivity. Qed.

Lemma append_empty_r (s : string) : s ++ EmptyString = s.
Proof.
  induction s as [|c s IH]; [reflexivity | now rewrite append_cons, IH].
Qed.

Lemma append_eq_empty (a b : string) :
  a ++ b = EmptyString -> a = EmptyString /\ b = EmptyString.
Proof.
  destruct a; [rewrite append_nil; auto | rewrite append_cons; discriminate].
Qed.

Lemma append_eq_cons (a b : string) (c : ascii) (s : string) :
  a ++ b = String c s ->
  (a = EmptyString /\ b = String c s)
  \/ exists a', a = String c a' /\ s = a' ++ b.
Proof.
  destruct a as [|x a]; intros H.
  - left; auto.
  - right. rewrite append_cons in H. injection H as -> <-. eauto.
Qed.

End StringFacts.

(* ================================================================== *)
(** * The matcher decides the language of a pattern *)

Module ReFacts.
Import Re.

Section Correct.
Variable ua : ascii -> bool.

Local Abbreviation matches := (matches ua).
Local Abbreviation deriv := (deriv ua).

Lemma matches_empty_nullable r s :
  matches r s -> s = EmptyString -> nullable r = true.
Proof.
  induction 1; intros Hs; simpl; try reflexivity; try discriminate.
  - apply append_eq_empty in Hs as [-> ->].
    rewrite IHmatches1, IHmatches2; auto.
  - rewrite IHmatches; auto.
  - rewrite IHmatches; auto using orb_true_r.
Qed.

Lemma nullable_matches_empty r :
  nullable r = true -> matches r EmptyString.
Proof.
  induction r; simpl; intros H; try discriminate.
  - constructor.
  - apply andb_true_iff in H as [H1 H2].
    change EmptyString with (EmptyString ++ EmptyString).
    constructor; auto.
  - apply orb_true_iff in H as [H|H]; [apply m_alt_l | apply m_alt_r]; auto.
  - constructor.
Qed.

Lemma nullable_spec r : nullable r = true <-> matches r EmptyString.
Proof.
  split; [apply nullable_matches_empty|].
  intros H. now apply (matches_empty_nullable r EmptyString).
Qed.

Lemma deriv_sound c r : forall s, matches (deriv c r) s -> matches r (String c s).
Proof.
  induction r as [| |items|r1 IH1 r2 IH2|r1 IH1 r2 IH2|r IH]; simpl; intros s H.
  - inversion H.
  - inversion H.
  - destruct (set_has ua items c) eqn:E; inversion H; subst.
    now constructor.
  - assert (Hseq : forall s, matches (Seq (deriv c r1) r2) s ->
                             matches (Seq r1 r2) (String c s)).
    { intros s0 H0. inversion H0; subst.
      change (String c (s1 ++ s2)) with (String c s1 ++ s2).
      constructor; auto. }
    destruct (Re.nullable r1) eqn:E; [|auto].
    inversion H; subst; [auto|].
    change (String c s) with (EmptyString ++ String c s).
    constructor; [now apply nullable_matches_empty | auto].
  - inversion H; subst; [apply m_alt_l | apply m_alt_r]; auto.
  - inversion H; subst.
    change (String c (s1 ++ s2)) with (String c s1 ++ s2).
    constructor; auto.
Qed.

Lemma deriv_complete c r x :
  matches r x -> forall s, x = String c s -> matches (deriv c r) s.
Proof.
  induction 1 as [|items c' Hc|r1 r2 s1 s2 H1 IH1 H2 IH2|r1 r2 s0 H0 IH0
                 |r1 r2 s0 H0 IH0|r|r s1 s2 H1 IH1 H2 IH2];
    intros s Hs; simpl.
  - discriminate.
  - injection Hs as -> <-. rewrite Hc. constructor.
  - apply append_eq_cons in Hs as [[-> ->]|(a' & -> & ->)].
    + rewrite (matches_empty_nullable _ _ H1 eq_refl).
      apply m_alt_r; auto.
    + destruct (Re.nullable r1); [apply m_alt_l|]; constructor; auto.
  - apply m_alt_l; auto.
  - apply m_alt_r; auto.
  - discriminate.
  - apply append_eq_cons in Hs as [[-> ->]|(a' & -> & ->)].
    + apply (IH2 s eq_refl).
    + constructor; auto.
Qed.

Lemma deriv_spec c r s : matches (deriv c r) s <-> matches r (String c s).
Proof.
  split; [apply deriv_sound | intros H; now apply (deriv_complete c r _ H)].
Qed.

Lemma fullmatch_spec r s : fullmatch ua r s = true <-> matches r s.
Proof.
  revert r; induction s as [|c s IH]; intros r; simpl.
  - apply nullable_spec.
  - rewrite IH. apply deriv_spec.
Qed.

(** [re.match] succeeds exactly when a prefix is in the language. *)
Lemma match_spec r s :
  match_ ua r s = true <-> exists p t, s = p ++ t /\ matches r p.
Proof.
  revert r; induction s as [|c s IH]; intros r; simpl.
  - rewrite orb_false_r, nullable_spec. split.
    + intros H. exists EmptyString, EmptyString. auto.
    + intros (p & t & Hs & Hp). symmetry in Hs.
      apply append_eq_empty in Hs as [-> _]. exact Hp.
  - rewrite orb_true_iff, IH, nullable_spec. split.
    + intros [H|(p & t & -> & Hp)].
      * exists EmptyString, (String c s). auto.
      * exists (String c p), t. split; [reflexivity|]. now apply deriv_spec.
    + intros (p & t & Hs & Hp). symmetry in Hs.
      apply append_eq_cons in Hs as [[-> _]|(p' & -> & ->)].
      * now left.
      * right. exists p', t. split; [reflexivity|]. now apply deriv_spec.
Qed.

Lemma match_prefix r p t : matches r p -> match_ ua r (p ++ t) = true.
Proof. intros H. apply match_spec. eauto. Qed.

End Correct.
End ReFacts.

(* ================================================================== *)
(** * sanitize_filename *)

Section Sanitize.

Lemma illegal_set_has (ua : ascii -> bool) (c : ascii) :
  Re.set_has ua illegal_set c = bool_decide (c ∈ illegal_chars).
Proof.
  unfold illegal_set, Re.set_has.
  induction illegal_chars as [|x xs IH]; simpl.
  - reflexivity.
  - rewrite IH. destruct (Ascii.eqb_spec c x) as [->|Hne].
    + symmetry. apply bool_decide_eq_true. left.
    + simpl. apply bool_decide_ext. rewrite elem_of_cons. tauto.
Qed.

Lemma sanitize_cons (c : ascii) (s : string) :
  sanitize_filename (String c s) = String (clean c) (sanitize_filename s).
Proof.
  unfold sanitize_filename; cbn [Re.sub_set]. rewrite illegal_set_has. unfold clean.
  destruct (bool_decide (c ∈ illegal_chars)); reflexivity.
Qed.

Lemma clean_legal (c : ascii) : clean c ∉ illegal_chars.
Proof.
  unfold clean. destruct (bool_decide (c ∈ illegal_chars)) eqn:E.
  - intros H. apply list_elem_of_In in H. simpl in H. intuition discriminate.
  - now apply bool_decide_eq_false in E.
Qed.

End Sanitize.

(** C4. [sanitize_filename] is a total function that replaces each
    occurrence of backslash, slash, star, question mark, colon, double
    quote, less, greater and bar by an underscore, leaves every other
    character where it is, and so returns a string without any of the
    nine characters. *)
Theorem sanitize_filename_total (title : string) :
  list_ascii_of_string (sanitize_filename title)
    = map clean (list_ascii_of_string title)
  /\ Forall (fun c => c ∉ illegal_chars)
            (list_ascii_of_string (sanitize_filename title)).
Proof.
  induction title as [|c s [IH1 IH2]].
  - split; [reflexivity | constructor].
  - rewrite sanitize_cons; simpl. split.
    + now rewrite IH1.
    + constructor; [apply clean_legal | exact IH2].
Qed.

(* ================================================================== *)
(** * validate_playlist_url *)

Lemma validate_accepts_iff (ua : ascii -> bool) (url : string) :
  validate_playlist_url ua url = inr url
  <-> Re.match_ ua playlist_pattern url = true.
Proof.
  unfold validate_playlist_url.
  destruct (Re.match_ ua playlist_pattern url); simpl; split;
    intros; congruence.
Qed.

(** C10. [validate_playlist_url] anchors its pattern at the start of the
    input only: a string is accepted, and returned unchanged, exactly when
    one of its prefixes is in the language of the pattern, whatever
    follows that prefix.  The short youtu.be form is one alternative of
    the pattern, so such addresses are accepted as well. *)
Theorem validate_playlist_url_prefix (ua : ascii -> bool) (url : string) :
  validate_playlist_url ua url = inr url
  <-> exists p t, url = p ++ t /\ Re.matches ua playlist_pattern p.
Proof.
  rewrite validate_accepts_iff. apply ReFacts.match_spec.
Qed.

Lemma validate_playlist_url_prefix_witness :
  validate_playlist_url (fun _ => false)
    ("youtu.be/dQw4w9WgXcQ" ++ "?t=42 <not a playlist>")
  = inr ("youtu.be/dQw4w9WgXcQ" ++ "?t=42 <not a playlist>").
Proof.
  apply (proj2 (validate_playlist_url_prefix (fun _ => false) _)).
  exists "youtu.be/dQw4w9WgXcQ", "?t=42 <not a playlist>".
  split; [reflexivity|].
  apply ReFacts.fullmatch_spec. vm_compute. reflexivity.
Defined.

(* ================================================================== *)
(** * Running monadic code *)

Section RunFacts.
Context {W : Type}.

Lemma run_bind_inr {A B} (m : M W A) (k : A -> M W B) (w w1 : W) a t1 :
  m w = Outcome (inr a) w1 t1 ->
  (m ≫= k) w
  = Outcome (value (k a w1)) (world (k a w1)) (t1 ++ trace (k a w1)).
Proof.
  intros H. unfold mbind, M_bind, bind. rewrite H.
  now destruct (k a w1).
Qed.

Lemma run_bind_inl {A B} (m : M W A) (k : A -> M W B) (w w1 : W) e t1 :
  m w = Outcome (inl e) w1 t1 ->
  (m ≫= k) w = Outcome (inl e) w1 t1.
Proof. intros H. unfold mbind, M_bind, bind. now rewrite H. Qed.

Lemma run_try_inr {A} (m : M W A) (h : exn -> M W A) (w w1 : W) a t1 :
  m w = Outcome (inr a) w1 t1 -> try_except m h w = Outcome (inr a) w1 t1.
Proof. intros H. unfold try_except. now rewrite H. Qed.

Lemma run_try_inl {A} (m : M W A) (h : exn -> M W A) (w w1 : W) e t1 :
  m w = Outcome (inl e) w1 t1 ->
  try_except m h w
  = Outcome (value (h e w1)) (world (h e w1)) (t1 ++ trace (h e w1)).
Proof.
  intros H. unfold try_except. rewrite H. now destruct (h e w1).
Qed.

Lemma outcome_eta {A} (o : outcome W A) :
  o = Outcome (value o) (world o) (trace o).
Proof. now destruct o. Qed.

End RunFacts.

(* ================================================================== *)
(** * time.sleep *)

Section Sleep.
Context {W : Type}.
Variable env : Env W.

Lemma nanoseconds_int (n : Z) : nanoseconds (inject_Z n) = n * 10 ^ 9.
Proof.
  unfold nanoseconds, round_away.
  assert (E : (inject_Z n * inject_Z (10 ^ 9) == inject_Z (n * 10 ^ 9))%Q)
    by (now rewrite inject_Z_mult).
  destruct (Qlt_le_dec _ _).
  - rewrite (Qfloor_comp _ _ E). apply Qfloor_Z.
  - rewrite (Qceiling_comp _ _ E). apply Qceiling_Z.
Qed.

Lemma nanoseconds_sign (secs : Q) :
  (nanoseconds secs <? 0)%Z = true <-> (secs < 0)%Q.
Proof.
  unfold nanoseconds, round_away.
  assert (Hs : (secs * inject_Z (10 ^ 9) < 0 <-> secs < 0)%Q).
  { assert (Hk : (0 < inject_Z (10 ^ 9))%Q) by reflexivity.
    split; intros H.
    - apply (Qmult_lt_r _ _ _ Hk). now rewrite Qmult_0_l.
    - apply (Qmult_lt_r _ _ _ Hk) in H. now rewrite Qmult_0_l in H. }
  rewrite Z.ltb_lt.
  destruct (Qlt_le_dec (secs * inject_Z (10 ^ 9)) 0) as [Hlt|Hge].
  - split; intros _; [now apply Hs|].
    pose proof (Qfloor_le (secs * inject_Z (10 ^ 9))) as Hf.
    assert (Hq : (inject_Z (Qfloor (secs * inject_Z (10 ^ 9))) < 0)%Q)
      by (eapply Qle_lt_trans; eassumption).
    set (z := Qfloor (secs * inject_Z (10 ^ 9))) in *.
    unfold Qlt in Hq. simpl in Hq. lia.
  - split; intros H.
    + exfalso.
      pose proof (Qceiling_resp_le _ _ Hge) as Hc.
      change (Qceiling 0) with 0 in Hc. lia.
    + apply Hs in H. exfalso. eapply Qlt_not_le; eassumption.
Qed.

Lemma sleep_sleeps secs w :
  (0 <= secs)%Q ->
  fits_int64 (nanoseconds secs) = true ->
  sleep env secs w = Outcome (inr tt) (sleep_for env secs w) [EvSleep secs].
Proof.
  intros Hs Hf. unfold sleep. rewrite Hf. simpl.
  destruct (nanoseconds secs <? 0)%Z eqn:E; [|reflexivity].
  apply nanoseconds_sign in E. exfalso. eapply Qlt_not_le; eassumption.
Qed.

Lemma sleep_refuses secs w :
  (secs < 0)%Q ->
  fits_int64 (nanoseconds secs) = true ->
  sleep env secs w = Outcome (inl sleep_negative) w [].
Proof.
  intros Hs Hf. unfold sleep. rewrite Hf. simpl.
  apply nanoseconds_sign in Hs. now rewrite Hs.
Qed.

Lemma sleep_overflows secs w :
  fits_int64 (nanoseconds secs) = false ->
  sleep env secs w = Outcome (inl sleep_overflow) w [].
Proof. intros Hf. unfold sleep. now rewrite Hf. Qed.

(** The three outcomes of time.sleep. *)
Lemma sleep_cases secs w :
  sleep env secs w = Outcome (inr tt) (sleep_for env secs w) [EvSleep secs]
  \/ sleep env secs w = Outcome (inl sleep_negative) w []
  \/ sleep env secs w = Outcome (inl sleep_overflow) w [].
Proof.
  unfold sleep.
  destruct (fits_int64 (nanoseconds secs)); simpl; [|auto].
  destruct (nanoseconds secs <? 0)%Z; auto.
Qed.

(** The waits of the retry loop: [2 ^ 33] seconds are the last that fit. *)
Lemma backoff_fits a :
  a <= 33 -> fits_int64 (nanoseconds (inject_Z (2 ^ a))) = true.
Proof.
  intros Ha. rewrite nanoseconds_int. unfold fits_int64.
  assert (0 <= 2 ^ a <= 2 ^ 33).
  { split; [apply Z.pow_nonneg; lia|].
    destruct (Z_lt_le_dec a 0) as [Hneg|Hpos].
    - rewrite Z.pow_neg_r by lia. lia.
    - apply Z.pow_le_mono_r; lia. }
  apply andb_true_iff. rewrite Z.leb_le, Z.ltb_lt.
  change (2 ^ 33) with 8589934592 in *. lia.
Qed.

Lemma backoff_overflows a :
  34 <= a -> fits_int64 (nanoseconds (inject_Z (2 ^ a))) = false.
Proof.
  intros Ha. rewrite nanoseconds_int. unfold fits_int64.
  assert (2 ^ 34 <= 2 ^ a) by (apply Z.pow_le_mono_r; lia).
  apply andb_false_iff. right. rewrite Z.ltb_ge.
  change (2 ^ 34) with 17179869184 in *. lia.
Qed.

End Sleep.

(* ================================================================== *)
(** * The retry loop *)

Section Retry.
Context {W : Type}.
Variable env : Env W.
Variable cfg : Config.
Variable yt_api : YtApi.
Variable video : string.
Variable n : Z.

Local Abbreviation body := (retry_body env yt_api video n).

Ltac run :=
  unfold retry_body, try_except, fetch, call, log, emit, sleep, raise,
    mbind, M_bind, bind, mret, M_ret, ret; simpl.

Lemma retry_body_fetched a w t w1 :
  api_fetch env yt_api video english w = (inr t, w1) ->
  body a w = Outcome (inr (Some (Some t))) w1 [EvFetch video english].
Proof. intros E. run. rewrite E. reflexivity. Qed.

Lemma retry_body_fallback a w e w1 t w2 :
  api_fetch env yt_api video english w = (inl e, w1) ->
  a = n - 1 ->
  api_fetch env yt_api video None w1 = (inr t, w2) ->
  body a w = Outcome (inr (Some (Some t))) w2
                     [EvFetch video english; EvFetch video None].
Proof.
  intros E -> E2. run. rewrite E. simpl. rewrite Z.eqb_refl. simpl.
  rewrite E2. reflexivity.
Qed.

Lemma retry_body_exhausted a w e w1 e2 w2 :
  api_fetch env yt_api video english w = (inl e, w1) ->
  a = n - 1 ->
  api_fetch env yt_api video None w1 = (inl e2, w2) ->
  body a w = Outcome (inr (Some None)) w2
                     [EvFetch video english; EvFetch video None;
                      EvLog ERROR (MsgNoTranscript n)].
Proof.
  intros E -> E2. run. rewrite E. simpl. rewrite Z.eqb_refl. simpl.
  rewrite E2. reflexivity.
Qed.

Lemma backoff_wait_nonneg a : (0 <= inject_Z (2 ^ a))%Q.
Proof.
  unfold Qle. simpl. pose proof (Z.pow_nonneg 2 a). lia.
Qed.

(** Another attempt follows: a warning and a sleep of [2 ^ a] seconds,
    when time.sleep takes that many. *)
Lemma retry_body_again a w e w1 :
  api_fetch env yt_api video english w = (inl e, w1) ->
  a <> n - 1 ->
  a <= 33 ->
  body a w = Outcome (inr None) (sleep_for env (inject_Z (2 ^ a)) w1)
                     [EvFetch video english;
                      EvLog WARNING (MsgRetry (a + 1) n (2 ^ a)
                                              (take 50 (str e)));
                      EvSleep (inject_Z (2 ^ a))].
Proof.
  intros E Hne Ha. unfold retry_body.
  erewrite run_try_inl
    by (unfold fetch; apply run_bind_inl; unfold call; now rewrite E).
  apply Z.eqb_neq in Hne. rewrite Hne.
  unfold log, emit, mbind, M_bind, bind at 1.
  unfold mbind, M_bind, bind.
  rewrite (sleep_sleeps env _ w1 (backoff_wait_nonneg a) (backoff_fits a Ha)).
  reflexivity.
Qed.

(** From attempt 34 on time.sleep refuses the wait: its exception leaves
    the handler, and with it the loop. *)
Lemma retry_body_overflow a w e w1 :
  api_fetch env yt_api video english w = (inl e, w1) ->
  a <> n - 1 ->
  34 <= a ->
  body a w = Outcome (inl sleep_overflow) w1
                     [EvFetch video english;
                      EvLog WARNING (MsgRetry (a + 1) n (2 ^ a)
                                              (take 50 (str e)))].
Proof.
  intros E Hne Ha. unfold retry_body.
  erewrite run_try_inl
    by (unfold fetch; apply run_bind_inl; unfold call; now rewrite E).
  apply Z.eqb_neq in Hne. rewrite Hne.
  unfold log, emit, mbind, M_bind, bind at 1.
  unfold mbind, M_bind, bind.
  rewrite (sleep_overflows env _ w1 (backoff_overflows a Ha)).
  reflexivity.
Qed.

End Retry.

Section RetryLoop.
Context {W : Type}.
Variable env : Env W.
Variable cfg : Config.
Variable yt_api : YtApi.
Variable video : string.
Variable n : Z.

Local Abbreviation body := (retry_body env yt_api video n).
Local Abbreviation loop a m := (for_return (map Z.of_nat (seq a m)) body).

Lemma loop_step a m w :
  loop a (S m) w
  = (body (Z.of_nat a) ≫= fun r =>
       match r with
       | Some v => mret (Some v)
       | None => loop (S a) m
       end) w.
Proof. reflexivity. Qed.

Lemma loop_returned a m w v w1 t1 :
  body (Z.of_nat a) w = Outcome (inr (Some v)) w1 t1 ->
  loop a (S m) w = Outcome (inr (Some v)) w1 t1.
Proof.
  intros H. rewrite loop_step, (run_bind_inr _ _ _ _ _ _ H). simpl.
  now rewrite app_nil_r.
Qed.

Lemma loop_continued a m w w1 t1 :
  body (Z.of_nat a) w = Outcome (inr None) w1 t1 ->
  loop a (S m) w
  = Outcome (value (loop (S a) m w1)) (world (loop (S a) m w1))
            (t1 ++ trace (loop (S a) m w1)).
Proof. intros H. now rewrite loop_step, (run_bind_inr _ _ _ _ _ _ H). Qed.

Lemma loop_raised a m w e w1 t1 :
  body (Z.of_nat a) w = Outcome (inl e) w1 t1 ->
  loop a (S m) w = Outcome (inl e) w1 t1.
Proof. intros H. now rewrite loop_step, (run_bind_inl _ _ _ _ _ _ H). Qed.

(** The loop makes at most one attempt per iteration. *)
Lemma loop_attempts m : forall a w,
  (attempts (trace (loop a m w)) <= m)%nat.
Proof.
  induction m as [|m IH]; intros a w.
  - unfold attempts; simpl; lia.
  - destruct (api_fetch env yt_api video english w) as [[e|t] w1] eqn:E.
    + destruct (Z.eq_dec (Z.of_nat a) (n - 1)) as [Hlast|Hmore].
      * destruct (api_fetch env yt_api video None w1) as [[e2|t] w2] eqn:E2.
        -- rewrite (loop_returned _ _ _ _ _ _
                      (retry_body_exhausted env _ _ _ _ _ _ _ _ _ E Hlast E2)).
           unfold attempts; simpl; lia.
        -- rewrite (loop_returned _ _ _ _ _ _
                      (retry_body_fallback env _ _ _ _ _ _ _ _ _ E Hlast E2)).
           unfold attempts; simpl; lia.
      * destruct (Z_le_gt_dec (Z.of_nat a) 33) as [Hfit|Hbig].
        -- rewrite (loop_continued _ _ _ _ _
                      (retry_body_again env _ _ _ _ _ _ _ E Hmore Hfit)).
           specialize (IH (S a) (sleep_for env (inject_Z (2 ^ Z.of_nat a)) w1)).
           unfold attempts in *; simpl; lia.
        -- rewrite (loop_raised _ _ _ _ _ _
                      (retry_body_overflow env _ _ _ _ _ _ _ E Hmore
                         ltac:(lia))).
           unfold attempts; simpl; lia.
    + rewrite (loop_returned _ _ _ _ _ _
                 (retry_body_fetched env _ _ _ _ _ _ _ E)).
      unfold attempts; simpl; lia.
Qed.



(** When the loop runs to the last value of [range(n)], its trace is a
    backoff: every sleep is followed by the next attempt. *)
Lemma loop_backoff m : forall a w,
  (a + S m)%nat = Z.to_nat n ->
  backoff video (Z.of_nat a) (trace (loop a (S m) w)).
Proof.
  induction m as [|m IH]; intros a w Ha;
    destruct (api_fetch env yt_api video english w) as [[e|t] w1] eqn:E.
  - assert (Hlast : Z.of_nat a = n - 1) by lia.
    destruct (api_fetch env yt_api video None w1) as [[e2|t] w2] eqn:E2.
    + rewrite (loop_returned _ _ _ _ _ _
                 (retry_body_exhausted env _ _ _ _ _ _ _ _ _ E Hlast E2)).
      apply backoff_stop. repeat constructor.
    + rewrite (loop_returned _ _ _ _ _ _
                 (retry_body_fallback env _ _ _ _ _ _ _ _ _ E Hlast E2)).
      apply backoff_stop. repeat constructor.
  - rewrite (loop_returned _ _ _ _ _ _
               (retry_body_fetched env _ _ _ _ _ _ _ E)).
    apply backoff_stop. constructor.
  - assert (Hmore : Z.of_nat a <> n - 1) by lia.
    destruct (Z_le_gt_dec (Z.of_nat a) 33) as [Hfit|Hbig].
    + rewrite (loop_continued _ _ _ _ _
                 (retry_body_again env _ _ _ _ _ _ _ E Hmore Hfit)).
      apply backoff_wait.
      replace (Z.of_nat a + 1) with (Z.of_nat (S a)) by lia.
      apply IH. lia.
    + rewrite (loop_raised _ _ _ _ _ _
                 (retry_body_overflow env _ _ _ _ _ _ _ E Hmore ltac:(lia))).
      apply backoff_stop. repeat constructor.
  - rewrite (loop_returned _ _ _ _ _ _
               (retry_body_fetched env _ _ _ _ _ _ _ E)).
    apply backoff_stop. constructor.
Qed.

Section Down.
(** Every fetch raises. *)
Hypothesis down : forall api v langs w,
  exists e w', api_fetch env api v langs w = (inl e, w').


(** Whatever the number of attempts, the loop has no transcript to
    return. *)
Lemma loop_down m : forall a w r,
  value (loop a m w) = inr r -> default None r = None.
Proof.
  induction m as [|m IH]; intros a w r.
  - simpl. now intros [= <-].
  - destruct (down yt_api video english w) as (e & w1 & E).
    destruct (Z.eq_dec (Z.of_nat a) (n - 1)) as [Hlast|Hmore].
    + destruct (down yt_api video None w1) as (e2 & w2 & E2).
      rewrite (loop_returned _ _ _ _ _ _
                 (retry_body_exhausted env _ _ _ _ _ _ _ _ _ E Hlast E2)).
      now intros [= <-].
    + destruct (Z_le_gt_dec (Z.of_nat a) 33) as [Hfit|Hbig].
      * rewrite (loop_continued _ _ _ _ _
                   (retry_body_again env _ _ _ _ _ _ _ E Hmore Hfit)).
        apply IH.
      * rewrite (loop_raised _ _ _ _ _ _
                   (retry_body_overflow env _ _ _ _ _ _ _ E Hmore
                      ltac:(lia))).
        discriminate.
Qed.


End Down.
End RetryLoop.

(* ================================================================== *)
(** * Backoff traces *)

Section Backoff.

Lemma quiet_attempts tail :
  Forall (fun ev => is_attempt ev = false /\ is_sleep ev = false) tail ->
  attempts tail = 0%nat /\ waits tail = []
  /\ forall last k, wait_before_from last k tail = None.
Proof.
  unfold attempts.
  induction 1 as [|ev tail [Ha Hs] _ (IH1 & IH2 & IH3)]; simpl.
  - auto.
  - rewrite Ha. repeat split; auto.
    + destruct ev; simpl in *; try discriminate; auto.
    + intros last k. destruct ev as [| | | | |v [l|]| | | | |]; simpl in *;
        try discriminate; auto.
Qed.

Lemma backoff_attempts video a tr :
  backoff video a tr -> (1 <= attempts tr)%nat.
Proof. destruct 1; unfold attempts; simpl; lia. Qed.

Lemma backoff_waits video a tr :
  backoff video a tr ->
  waits tr = map (fun k => inject_Z (2 ^ (a + Z.of_nat k)))
                 (seq 0 (attempts tr - 1)).
Proof.
  induction 1 as [a tail Hq|a m tr Hb IH].
  - destruct (quiet_attempts _ Hq) as (Ha & Hw & _).
    unfold attempts in *; simpl. rewrite Ha, Hw. reflexivity.
  - pose proof (backoff_attempts _ _ _ Hb) as Hpos.
    unfold attempts in *; simpl. rewrite IH.
    destruct (length (List.filter is_attempt tr)) as [|j]; [lia|].
    simpl. rewrite Nat.sub_0_r, Z.add_0_r. f_equal.
    rewrite <- seq_shift, map_map. apply map_ext.
    intros k. do 2 f_equal. lia.
Qed.

Lemma backoff_wait_before video a tr :
  backoff video a tr ->
  forall last k, (k < attempts tr)%nat ->
    wait_before_from last k tr
    = match k with
      | O => last
      | S k' => Some (inject_Z (2 ^ (a + Z.of_nat k')))
      end.
Proof.
  induction 1 as [a tail Hq|a m tr Hb IH]; intros last k Hk.
  - destruct (quiet_attempts _ Hq) as (Ha & _ & _).
    unfold attempts in *; simpl in Hk. rewrite Ha in Hk.
    destruct k; [reflexivity | lia].
  - unfold attempts in *; simpl in Hk.
    destruct k as [|k]; [reflexivity|]. simpl.
    rewrite IH by lia.
    destruct k as [|k]; do 3 f_equal; lia.
Qed.

End Backoff.

(* ================================================================== *)
(** * fetch_transcript_with_retry *)

Section FetchWithRetry.
Context {W : Type}.
Variable env : Env W.
Variable cfg : Config.

Lemma fetch_retry_unfold yt_api video max_retries w :
  let n := default (RETRY_ATTEMPTS cfg) max_retries in
  let o := for_return (range n) (retry_body env yt_api video n) w in
  fetch_transcript_with_retry env cfg yt_api video max_retries w
  = Outcome (match value o with
             | inl e => inl e
             | inr r => inr (default None r)
             end) (world o) (trace o).
Proof.
  intros n o. unfold fetch_transcript_with_retry, mbind, M_bind, bind.
  fold n. fold o. destruct o as [[e|[v|]] w1 t1]; simpl;
    rewrite ?app_nil_r; reflexivity.
Qed.



End FetchWithRetry.




(** C9. With [max_retries <= 0] (given, or taken from RETRY_ATTEMPTS) the
    function returns None at once: no English fetch, no fallback fetch, no
    sleep, no log line, and the world is as it was. *)
Theorem fetch_without_attempts {W : Type} (env : Env W) (cfg : Config)
    (yt_api : YtApi) (video : string) (max_retries : option Z) (w : W) :
  default (RETRY_ATTEMPTS cfg) max_retries <= 0 ->
  fetch_transcript_with_retry env cfg yt_api video max_retries w
  = Outcome (inr None) w [].
Proof.
  intros Hn. rewrite fetch_retry_unfold. unfold range.
  replace (Z.to_nat (default (RETRY_ATTEMPTS cfg) max_retries))
    with 0%nat by lia.
  reflexivity.
Qed.

Lemma fetch_without_attempts_witness :
  Scenario.exhausted 0 = Outcome (inr None) (Sim.start ∅ 0) [].
Proof.
  apply (fetch_without_attempts Scenario.down_env
           (Scenario.with_retries 0 Sim.default_config)).
  simpl. lia.
Defined.

(** C2, as the code has it.  Whatever the service does: no wait precedes
    attempt 0; the wait between attempt [k] and attempt [k + 1], that is
    the wait before attempt [k + 1], is [2 ^ k] seconds; these are all
    the waits, so none follows the last attempt; and there are at most
    [max_retries] attempts.  The waits 1, 2 and 4 are thus the waits
    before attempts 1, 2 and 3, and a wait of 4 seconds needs four
    attempts. *)
Theorem backoff_between_attempts {W : Type} (env : Env W) (cfg : Config)
    (yt_api : YtApi) (video : string) (max_retries : option Z) (w : W) :
  let tr :=
    trace (fetch_transcript_with_retry env cfg yt_api video max_retries w) in
  wait_before 0 tr = None
  /\ (forall k, (S k < attempts tr)%nat ->
        wait_before (S k) tr = Some (inject_Z (2 ^ Z.of_nat k)))
  /\ waits tr = map (fun k => inject_Z (2 ^ Z.of_nat k))
                    (seq 0 (attempts tr - 1))
  /\ (attempts tr <= Z.to_nat (default (RETRY_ATTEMPTS cfg) max_retries))%nat.
Proof.
  intros tr. subst tr. rewrite fetch_retry_unfold. cbn [trace]. unfold range.
  set (n := default (RETRY_ATTEMPTS cfg) max_retries).
  pose proof (loop_attempts env yt_api video n (Z.to_nat n) 0%nat w) as Hle.
  destruct (Z.to_nat n) as [|m] eqn:Em.
  - simpl. split; [reflexivity|]. split; [|split; [reflexivity|]].
    + intros k Hk. unfold attempts in Hk; simpl in Hk. lia.
    + unfold attempts; simpl; lia.
  - pose proof (loop_backoff env yt_api video n m 0%nat w) as Hb.
    specialize (Hb ltac:(lia)). simpl Z.of_nat in Hb.
    pose proof (backoff_attempts _ _ _ Hb) as Hpos.
    repeat split.
    + unfold wait_before.
      now rewrite (backoff_wait_before _ _ _ Hb None 0%nat) by lia.
    + intros k Hk. unfold wait_before.
      now rewrite (backoff_wait_before _ _ _ Hb None (S k)) by lia.
    + now rewrite (backoff_waits _ _ _ Hb).
    + exact Hle.
Qed.

Lemma backoff_between_attempts_witness :
  wait_before 3 (trace (Scenario.exhausted 4)) = Some (inject_Z (2 ^ 2)).
Proof.
  apply (proj1 (proj2 (backoff_between_attempts Scenario.down_env
           (Scenario.with_retries 4 Sim.default_config)
           ApiDirect "dQw4w9WgXcQ" None (Sim.start ∅ 0))) 2%nat).
  vm_compute. lia.
Defined.

(** C2, as stated, fails on the default configuration (three attempts)
    with a service that is down: nothing is waited before attempt 0, one
    second before attempt 1 and two seconds before attempt 2, and four
    seconds are never waited. *)
Lemma backoff_before_attempt_fails :
  ~ (forall k, (k < attempts (trace (Scenario.exhausted 3)))%nat ->
       wait_before k (trace (Scenario.exhausted 3))
       = Some (inject_Z (2 ^ Z.of_nat k))).
Proof.
  intros H. specialize (H 0%nat). vm_compute in H.
  specialize (H ltac:(lia)). discriminate H.
Qed.

(* ================================================================== *)
(** * Properties of all the events of a run *)

Section Traces.
Context {W : Type}.
Variable P : event -> Prop.

Lemma trace_bind {A B} (m : M W A) (k : A -> M W B) (w : W) :
  Forall P (trace (m w)) ->
  (forall a, value (m w) = inr a -> Forall P (trace (k a (world (m w))))) ->
  Forall P (trace ((m ≫= k) w)).
Proof.
  intros Hm Hk. unfold mbind, M_bind, bind.
  destruct (m w) as [[e|a] w1 t1]; simpl in *; [exact Hm|].
  specialize (Hk a eq_refl). destruct (k a w1); simpl in *.
  apply Forall_app. split; assumption.
Qed.

Lemma trace_try {A} (m : M W A) (h : exn -> M W A) (w : W) :
  Forall P (trace (m w)) ->
  (forall e, value (m w) = inl e -> Forall P (trace (h e (world (m w))))) ->
  Forall P (trace (try_except m h w)).
Proof.
  intros Hm Hh. unfold try_except.
  destruct (m w) as [[e|a] w1 t1]; simpl in *; [|exact Hm].
  specialize (Hh e eq_refl). destruct (h e w1); simpl in *.
  apply Forall_app. split; assumption.
Qed.

Lemma trace_call {A} (ev : event) (f : W -> result A * W) (w : W) :
  P ev -> Forall P (trace (call ev f w)).
Proof. intros H. unfold call. destruct (f w). simpl. auto. Qed.

Lemma trace_for_return {A R} (body : A -> M W (option R)) (xs : list A) :
  (forall x w, Forall P (trace (body x w))) ->
  forall w, Forall P (trace (for_return xs body w)).
Proof.
  intros Hb. induction xs as [|x xs IH]; intros w; simpl.
  - constructor.
  - apply (trace_bind (body x)); [apply Hb|].
    intros [v|] _; [constructor | apply IH].
Qed.

Lemma trace_for_fold {A S} (body : S -> A -> M W S) (xs : list A) :
  (forall s x w, Forall P (trace (body s x w))) ->
  forall s w, Forall P (trace (for_fold xs body s w)).
Proof.
  intros Hb. induction xs as [|x xs IH]; intros s w; simpl.
  - constructor.
  - apply (trace_bind (body s x)); [apply Hb|]. intros s' _. apply IH.
Qed.

End Traces.

(** Steps through the code of a function of the script, leaving one goal
    [P ev] for each event it can cause. *)
Ltac trace_steps :=
  repeat first
    [ apply trace_bind; [|intros ? ?]
    | apply trace_try; [|intros ? ?]
    | apply trace_call
    | apply trace_for_return; intros ? ?
    | apply trace_for_fold; intros ? ? ?
    | match goal with
      | |- Forall _ (trace (ret _ _)) => constructor
      | |- Forall _ (trace (mret _ _)) => constructor
      | |- Forall _ (trace (raise _ _)) => constructor
      | |- Forall _ (trace (lift _ _)) => constructor
      | |- Forall _ (trace (log _ _ _)) => repeat constructor
      | |- Forall _ (trace (emit _ _)) => repeat constructor
      | |- Forall _ (trace ((if ?b then _ else _) _)) => destruct b
      | |- Forall _ (trace (match ?x with _ => _ end _)) => destruct x
      end ].

Section ProcessVideo.
Context {W : Type}.
Variable env : Env W.
Variable cfg : Config.
Variable yt_api : YtApi.
Variable video : Video.
Variable index total : Z.
Variable folder : string.

Local Abbreviation attempt_video :=
  (process_video_try env cfg yt_api video index total folder).
Local Abbreviation run_video :=
  (process_video env cfg yt_api video index total folder).

(** An exception under [try] is logged and turned into False. *)
Lemma process_video_caught w e :
  value (attempt_video w) = inl e ->
  run_video w
  = Outcome (inr false) (world (attempt_video w))
            (trace (attempt_video w)
             ++ [EvLog ERROR (MsgVideoError index total (take 80 (str e)))]).
Proof.
  intros H. unfold process_video.
  destruct (attempt_video w) as [r w1 t1] eqn:E. simpl in H. subst r.
  now rewrite (run_try_inl _ _ _ _ _ _ E).
Qed.

Lemma process_video_passed w b :
  value (attempt_video w) = inr b -> run_video w = attempt_video w.
Proof.
  intros H. unfold process_video.
  destruct (attempt_video w) as [r w1 t1] eqn:E. simpl in H. subst r.
  now rewrite (run_try_inr _ _ _ _ _ _ E).
Qed.

Lemma process_video_no_raise w : exists b, value (run_video w) = inr b.
Proof.
  destruct (value (attempt_video w)) as [e|b] eqn:E.
  - rewrite (process_video_caught _ _ E). eauto.
  - rewrite (process_video_passed _ _ E). eauto.
Qed.

Lemma process_video_try_no_title w e :
  title video = inl e -> attempt_video w = Outcome (inl e) w [].
Proof.
  intros Et. unfold process_video_try.
  apply run_bind_inl. unfold lift. now rewrite Et.
Qed.

(** The title is read first: when [process_video] succeeds there is one. *)
Lemma process_video_true_title w :
  value (run_video w) = inr true -> exists t, title video = inr t.
Proof.
  destruct (title video) as [e|t] eqn:Et; [|eauto].
  rewrite (process_video_caught w e)
    by now rewrite (process_video_try_no_title w e Et).
  discriminate.
Qed.

Lemma process_video_try_skips w t w1 :
  title video = inr t ->
  path_exists env (target folder (video_id video) t) w = (true, w1) ->
  attempt_video w
  = Outcome (inr true) w1
      [EvExists (target folder (video_id video) t);
       EvLog INFO (MsgSkipping index total (take 50 (sanitize_filename t)))].
Proof.
  intros Et Ex. unfold process_video_try.
  rewrite (run_bind_inr _ _ w w t []) by (unfold lift; now rewrite Et).
  fold (target folder (video_id video) t).
  rewrite (run_bind_inr _ _ w w1 true
             [EvExists (target folder (video_id video) t)])
    by (unfold exists_, call; now rewrite Ex).
  reflexivity.
Qed.






Lemma process_video_skips w t w1 :
  title video = inr t ->
  path_exists env (target folder (video_id video) t) w = (true, w1) ->
  run_video w
  = Outcome (inr true) w1
      [EvExists (target folder (video_id video) t);
       EvLog INFO (MsgSkipping index total (take 50 (sanitize_filename t)))].
Proof.
  intros Et Ex.
  rewrite (process_video_passed w true);
    rewrite (process_video_try_skips w t w1 Et Ex); reflexivity.
Qed.

End ProcessVideo.

(* ================================================================== *)
(** * Relations between the world before and after a run *)

Section Worlds.
Context {W : Type}.
Variable R : W -> W -> Prop.
Hypothesis R_refl : forall w, R w w.
Hypothesis R_trans : forall w1 w2 w3, R w1 w2 -> R w2 w3 -> R w1 w3.

Lemma world_bind {A B} (m : M W A) (k : A -> M W B) (w : W) :
  R w (world (m w)) ->
  (forall a, value (m w) = inr a ->
             R (world (m w)) (world (k a (world (m w))))) ->
  R w (world ((m ≫= k) w)).
Proof.
  intros Hm Hk. unfold mbind, M_bind, bind.
  destruct (m w) as [[e|a] w1 t1]; simpl in *; [exact Hm|].
  specialize (Hk a eq_refl). destruct (k a w1); simpl in *.
  eapply R_trans; eassumption.
Qed.

Lemma world_try {A} (m : M W A) (h : exn -> M W A) (w : W) :
  R w (world (m w)) ->
  (forall e, value (m w) = inl e ->
             R (world (m w)) (world (h e (world (m w))))) ->
  R w (world (try_except m h w)).
Proof.
  intros Hm Hh. unfold try_except.
  destruct (m w) as [[e|a] w1 t1]; simpl in *; [|exact Hm].
  specialize (Hh e eq_refl). destruct (h e w1); simpl in *.
  eapply R_trans; eassumption.
Qed.

Lemma world_for_return {A T} (body : A -> M W (option T)) (xs : list A) :
  (forall x w, R w (world (body x w))) ->
  forall w, R w (world (for_return xs body w)).
Proof.
  intros Hb. induction xs as [|x xs IH]; intros w; simpl.
  - apply R_refl.
  - apply (world_bind (body x)); [apply Hb|].
    intros [v|] _; [apply R_refl | apply IH].
Qed.

Lemma world_for_fold {A S} (body : S -> A -> M W S) (xs : list A) :
  (forall s x w, R w (world (body s x w))) ->
  forall s w, R w (world (for_fold xs body s w)).
Proof.
  intros Hb. induction xs as [|x xs IH]; intros s w; simpl.
  - apply R_refl.
  - apply (world_bind (body s x)); [apply Hb|]. intros s' _. apply IH.
Qed.

End Worlds.

(* ================================================================== *)
(** * The reference world keeps the files it has *)

Module SimFacts.
Import Sim.

Section Folder.
Variable service :
  nat -> YtApi -> string -> option (list string) -> result transcript.
Variable listing : string -> result (list Video).
Variable cfg : Config.

Local Abbreviation env := (sim_env service listing alone).

Lemma keeps_refl w : keeps w w.
Proof. unfold keeps. reflexivity. Qed.

Lemma keeps_trans w1 w2 w3 : keeps w1 w2 -> keeps w2 w3 -> keeps w1 w3.
Proof. unfold keeps. intros H1 H2. now transitivity (files w2). Qed.

Lemma same_files_keeps w w' : files w' = files w -> keeps w w'.
Proof. unfold keeps. now intros ->. Qed.

Local Abbreviation same w w' := (files w' = files w).

Lemma fetch_retry_same_files yt_api video max_retries w :
  files (world (fetch_transcript_with_retry env cfg yt_api video
                  max_retries w)) = files w.
Proof.
  unfold fetch_transcript_with_retry.
  apply (world_bind (fun w w' => same w w')); try congruence.
  - apply (world_for_return (fun w w' => same w w')); try congruence.
    intros a w0. unfold retry_body, fetch, sleep, call, log, emit,
      try_except, mbind, M_bind, bind; simpl.
    destruct (service (requests w0) yt_api video english); simpl;
      [|reflexivity].
    destruct (a =? _)%Z; simpl.
    + destruct (service (S (requests w0)) yt_api video None); reflexivity.
    + unfold raise.
      destruct (fits_int64 _); simpl; [destruct (_ <? _)%Z|]; reflexivity.
  - intros [v|] _; reflexivity.
Qed.

Lemma exists_alone path (w : state) :
  exists_ env path w
  = Outcome (inr (match files w !! path with
                  | Some _ => true
                  | None => false
                  end))
            (State (files w) (clock w) (requests w) (S (looks w)))
            [EvExists path].
Proof. reflexivity. Qed.

Lemma process_video_try_keeps yt_api video index total folder w :
  keeps w (world (process_video_try env cfg yt_api video index total
                    folder w)).
Proof.
  unfold process_video_try.
  apply (world_bind keeps keeps_trans); [apply keeps_refl|].
  intros t _. change (world (lift (title video) w)) with w.
  fold (target folder (video_id video) t).
  set (path := target folder (video_id video) t).
  rewrite (run_bind_inr _ _ _ _ _ _ (exists_alone path w)). cbn [world].
  set (w1 := State (files w) (clock w) (requests w) (S (looks w))).
  destruct (files w !! path) as [old|] eqn:Ep;
    [now apply same_files_keeps|].
  rewrite (run_bind_inr _ _ w1 w1 tt [EvLog INFO (MsgProcessing index total
             (take 50 (sanitize_filename t)))]) by reflexivity.
  cbn [world].
  pose proof (fetch_retry_same_files yt_api (video_id video) None w1)
    as Hsame.
  destruct (fetch_transcript_with_retry env cfg yt_api (video_id video)
              None w1) as [[e|[data|]] w2 t2] eqn:E;
    cbn [world] in Hsame.
  - rewrite (run_bind_inl _ _ _ _ _ _ E). cbn [world]. unfold keeps.
    rewrite Hsame. reflexivity.
  - rewrite (run_bind_inr _ _ _ _ _ _ E). cbn [world].
    assert (Hins : files w ⊆ <[path := (String.concat newline data,
                                         clock w2)]> (files w2)).
    { rewrite Hsame. now apply insert_subseteq. }
    unfold sleep, raise.
    destruct (fits_int64 _); simpl; [destruct (_ <? _)%Z|]; exact Hins.
  - rewrite (run_bind_inr _ _ _ _ _ _ E). cbn [world]. unfold keeps.
    simpl. rewrite Hsame. reflexivity.
Qed.

Lemma process_video_keeps yt_api video index total folder w :
  keeps w (world (process_video env cfg yt_api video index total folder w)).
Proof.
  unfold process_video.
  apply (world_try keeps keeps_trans); [apply process_video_try_keeps|].
  intros e _. apply keeps_refl.
Qed.

Lemma main_body_keeps yt_api n_videos stats iv w :
  keeps w (world (main_body env cfg yt_api n_videos stats iv w)).
Proof.
  destruct iv as [i video]. unfold main_body.
  apply (world_bind keeps keeps_trans); [apply process_video_keeps|].
  intros [|] _; [|apply keeps_refl].
  set (w1 := world (process_video _ _ _ _ _ _ _ _)).
  destruct (title video) as [e|t]; [apply keeps_refl|].
  rewrite (run_bind_inr _ _ w1 w1 t []) by reflexivity.
  fold (target (OUTPUT_FOLDER cfg) (video_id video) t).
  generalize (target (OUTPUT_FOLDER cfg) (video_id video) t). intros path.
  rewrite (run_bind_inr _ _ _ _ _ _ (exists_alone path w1)). cbn [world].
  destruct (files w1 !! path) as [[text mtime]|] eqn:Ef;
    [|now apply same_files_keeps].
  unfold getmtime_, time_, call, mbind, M_bind, bind. simpl.
  rewrite Ef. simpl.
  destruct (Qlt_le_dec _ _); now apply same_files_keeps.
Qed.

Lemma main_keeps w : keeps w (world (main env cfg w)).
Proof.
  unfold main, main_loop, initialize_api, fetch_playlist, print_summary.
  repeat first
    [ apply (world_bind keeps keeps_trans); [|intros ? _]
    | apply (world_try keeps keeps_trans); [|intros ? _]
    | apply (world_for_fold keeps keeps_refl keeps_trans); intros ? ? ?
    | apply main_body_keeps
    | apply keeps_refl
    | match goal with
      | |- keeps _ (world ((if ?b then _ else _) _)) => destruct b
      | |- keeps _ (world (match ?x with _ => _ end _)) => destruct x
      end ].
Qed.

End Folder.
End SimFacts.

(* ================================================================== *)
(** * The loop of main *)

Section MainBody.
Context {W : Type}.
Variable env : Env W.
Variable cfg : Config.
Variable yt_api : YtApi.
Variable n_videos : Z.

Local Abbreviation run_video video i :=
  (process_video env cfg yt_api video i n_videos (OUTPUT_FOLDER cfg)).
Local Abbreviation step := (main_body env cfg yt_api n_videos).

Lemma main_body_failed stats i video w :
  value (run_video video i w) = inr false ->
  step stats (i, video) w
  = Outcome (inr (add_failed stats)) (world (run_video video i w))
            (trace (run_video video i w)).
Proof.
  intros H. unfold main_body.
  destruct (run_video video i w) as [r w1 t1] eqn:E. simpl in H. subst r.
  rewrite (run_bind_inr _ _ _ _ _ _ E). simpl. now rewrite app_nil_r.
Qed.

Lemma main_body_vanished stats i video w t w2 :
  value (run_video video i w) = inr true ->
  title video = inr t ->
  path_exists env (target (OUTPUT_FOLDER cfg) (video_id video) t)
    (world (run_video video i w)) = (false, w2) ->
  step stats (i, video) w
  = Outcome (inr stats) w2
      (trace (run_video video i w)
       ++ [EvExists (target (OUTPUT_FOLDER cfg) (video_id video) t)]).
Proof.
  intros H Et Ex. unfold main_body.
  destruct (run_video video i w) as [r w1 t1] eqn:E. simpl in H, Ex. subst r.
  rewrite (run_bind_inr _ _ _ _ _ _ E). cbn [value world trace].
  rewrite (run_bind_inr _ _ w1 w1 t []) by (unfold lift; now rewrite Et).
  fold (target (OUTPUT_FOLDER cfg) (video_id video) t).
  rewrite (run_bind_inr _ _ w1 w2 false
             [EvExists (target (OUTPUT_FOLDER cfg) (video_id video) t)])
    by (unfold exists_, call; now rewrite Ex).
  reflexivity.
Qed.

Lemma main_body_classified stats i video w t w2 mod_time w3 now w4 :
  value (run_video video i w) = inr true ->
  title video = inr t ->
  path_exists env (target (OUTPUT_FOLDER cfg) (video_id video) t)
    (world (run_video video i w)) = (true, w2) ->
  getmtime env (target (OUTPUT_FOLDER cfg) (video_id video) t) w2
    = (inr mod_time, w3) ->
  time_now env w3 = (now, w4) ->
  step stats (i, video) w
  = Outcome (inr (if Qlt_le_dec (now - mod_time) 5
                  then add_success stats else add_skipped stats))
      w4
      (trace (run_video video i w)
       ++ [EvExists (target (OUTPUT_FOLDER cfg) (video_id video) t);
           EvGetmtime (target (OUTPUT_FOLDER cfg) (video_id video) t);
           EvTime]).
Proof.
  intros H Et Ex Em En. unfold main_body.
  destruct (run_video video i w) as [r w1 t1] eqn:E. simpl in H, Ex. subst r.
  rewrite (run_bind_inr _ _ _ _ _ _ E). cbn [value world trace].
  rewrite (run_bind_inr _ _ w1 w1 t []) by (unfold lift; now rewrite Et).
  fold (target (OUTPUT_FOLDER cfg) (video_id video) t).
  rewrite (run_bind_inr _ _ w1 w2 true
             [EvExists (target (OUTPUT_FOLDER cfg) (video_id video) t)])
    by (unfold exists_, call; now rewrite Ex).
  cbn [value world trace].
  rewrite (run_bind_inr _ _ w2 w3 mod_time
             [EvGetmtime (target (OUTPUT_FOLDER cfg) (video_id video) t)])
    by (unfold getmtime_, call; now rewrite Em).
  cbn [value world trace].
  rewrite (run_bind_inr _ _ w3 w4 now [EvTime])
    by (unfold time_, call; now rewrite En).
  destruct (Qlt_le_dec (now - mod_time) 5); reflexivity.
Qed.

(** One pass through the body leaves [total] alone and adds at most one
    to the three other counters together. *)
Lemma main_body_counts stats iv w stats' :
  value (step stats iv w) = inr stats' ->
  total stats' = total stats
  /\ success stats + skipped stats + failed stats
     <= success stats' + skipped stats' + failed stats'
     <= success stats + skipped stats + failed stats + 1.
Proof.
  destruct iv as [i video].
  destruct (process_video_no_raise env cfg yt_api video i n_videos
              (OUTPUT_FOLDER cfg) w) as [[|] Hb].
  - destruct (process_video_true_title _ _ _ _ _ _ _ _ Hb) as [t Et].
    destruct (path_exists env (target (OUTPUT_FOLDER cfg) (video_id video) t)
                (world (run_video video i w))) as [[|] w2] eqn:Ex.
    + destruct (getmtime env
                  (target (OUTPUT_FOLDER cfg) (video_id video) t) w2)
        as [[e|mod_time] w3] eqn:Em.
      * unfold main_body.
        destruct (run_video video i w) as [r w1 t1] eqn:E.
        simpl in Hb, Ex. subst r.
        rewrite (run_bind_inr _ _ _ _ _ _ E). cbn [value world trace].
        rewrite (run_bind_inr _ _ w1 w1 t [])
          by (unfold lift; now rewrite Et).
        fold (target (OUTPUT_FOLDER cfg) (video_id video) t).
        rewrite (run_bind_inr _ _ w1 w2 true
                   [EvExists (target (OUTPUT_FOLDER cfg) (video_id video) t)])
          by (unfold exists_, call; now rewrite Ex).
        cbn [value world trace].
        rewrite (run_bind_inl _ _ w2 w3 e
                   [EvGetmtime
                      (target (OUTPUT_FOLDER cfg) (video_id video) t)])
          by (unfold getmtime_, call; now rewrite Em).
        discriminate.
      * destruct (time_now env w3) as [now w4] eqn:En.
        rewrite (main_body_classified _ _ _ _ _ _ _ _ _ _ Hb Et Ex Em En).
        cbn [value].
        destruct (Qlt_le_dec _ _); intros [= <-]; simpl; lia.
    + rewrite (main_body_vanished _ _ _ _ _ _ Hb Et Ex). cbn [value].
      intros [= <-]. lia.
  - rewrite (main_body_failed _ _ _ _ Hb). cbn [value].
    intros [= <-]. simpl. lia.
Qed.

Lemma for_fold_cons {A S} (body : S -> A -> M W S) x xs s w :
  for_fold (x :: xs) body s w = (body s x ≫= for_fold xs body) w.
Proof. reflexivity. Qed.

Lemma for_fold_counts xs : forall stats w stats',
  value (for_fold xs step stats w) = inr stats' ->
  total stats' = total stats
  /\ success stats + skipped stats + failed stats
     <= success stats' + skipped stats' + failed stats'
     <= success stats + skipped stats + failed stats
        + Z.of_nat (length xs).
Proof.
  induction xs as [|iv xs IH]; intros stats w stats'.
  - simpl. intros [= <-]. simpl. lia.
  - rewrite for_fold_cons.
    destruct (step stats iv w) as [[e|stats1] w1 t1] eqn:E1.
    + rewrite (run_bind_inl (W := W) _ _ _ _ _ _ E1). discriminate.
    + rewrite (run_bind_inr (W := W) _ _ _ _ _ _ E1). cbn [value].
      intros H. apply IH in H.
      assert (E1' : value (step stats iv w) = inr stats1)
        by now rewrite E1.
      apply main_body_counts in E1'. rewrite length_cons. lia.
Qed.

Lemma enumerate_length {A} (xs : list A) :
  forall start, length (enumerate xs start) = length xs.
Proof. induction xs as [|x xs IH]; intros start; simpl; auto. Qed.

End MainBody.

Lemma main_loop_counts {W : Type} (env : Env W) (cfg : Config)
    (yt_api : YtApi) (videos : list Video) (w : W) (stats : DownloadStats) :
  value (main_loop env cfg yt_api videos w) = inr stats ->
  total stats = Z.of_nat (length videos)
  /\ 0 <= success stats + skipped stats + failed stats <= total stats.
Proof.
  unfold main_loop. intros H.
  apply (for_fold_counts env cfg yt_api (Z.of_nat (length videos))) in H.
  rewrite enumerate_length in H. simpl in H. lia.
Qed.

(* ================================================================== *)
(** * process_video and the loop of main: the main results *)

(** C3. A video whose transcript file is already there: [process_video]
    looks at the path, logs the skip and returns True; it fetches nothing
    and writes nothing.  And on a folder that no other process touches, a
    whole run of [main], whatever the playlist and the transcript service
    answer, leaves every file that was there with the content and the
    modification time it had. *)
Theorem existing_transcript_is_skipped :
  (forall (W : Type) (env : Env W) (cfg : Config) (yt_api : YtApi)
          (video : Video) (index total : Z) (folder : string)
          (t : string) (w w1 : W),
      title video = inr t ->
      path_exists env (target folder (video_id video) t) w = (true, w1) ->
      process_video env cfg yt_api video index total folder w
      = Outcome (inr true) w1
          [EvExists (target folder (video_id video) t);
           EvLog INFO
             (MsgSkipping index total (take 50 (sanitize_filename t)))])
  /\ (forall service listing (cfg : Config) (w : Sim.state)
             (path : string) (file : string * Q),
         Sim.files w !! path = Some file ->
         Sim.files (world (main (Sim.sim_env service listing Sim.alone)
                             cfg w)) !! path = Some file).
Proof.
  split.
  - intros. now apply process_video_skips.
  - intros service listing cfg w path file Hfile.
    pose proof (SimFacts.main_keeps service listing cfg w) as Hkeeps.
    unfold Sim.keeps in Hkeeps.
    exact (lookup_weaken _ _ _ _ Hfile Hkeeps).
Qed.

Lemma existing_transcript_is_skipped_witness :
  process_video Scenario.down_env Sim.default_config ApiDirect
    Scenario.video_a 1 1 "transcripts" (Sim.start (Scenario.folder_with 3) 100)
  = Outcome (inr true)
      (Sim.State (Scenario.folder_with 3) 100 0 1)
      [EvExists "transcripts/[a] - Intro_ part 1_2.txt";
       EvLog INFO (MsgSkipping 1 1 "Intro_ part 1_2")]
  /\ Sim.files
       (world (main Scenario.down_env Sim.default_config
                 (Sim.start (Scenario.folder_with 3) 100)))
     !! "transcripts/[a] - Intro_ part 1_2.txt" = Some ("old text", 3%Q).
Proof.
  split.
  - apply (proj1 existing_transcript_is_skipped _ Scenario.down_env
             Sim.default_config ApiDirect Scenario.video_a 1 1 "transcripts"
             "Intro: part 1/2" (Sim.start (Scenario.folder_with 3) 100)).
    + reflexivity.
    + vm_compute. reflexivity.
  - apply (proj2 existing_transcript_is_skipped).
    vm_compute. reflexivity.
Defined.




(** C7, as the code has it.  For a video that [process_video] reported
    as done and whose file is there when [main] looks: it is counted in
    [success] when the current time minus the modification time of the
    file is less than 5 seconds, which covers every modification time
    later than the current time, and in [skipped] when that difference is 5
    seconds or more. *)
Theorem fresh_file_heuristic {W : Type} (env : Env W) (cfg : Config)
    (yt_api : YtApi) (n_videos : Z) (stats : DownloadStats) (index : Z)
    (video : Video) (w : W) (t : string) (w2 : W) (mod_time : Q) (w3 : W)
    (now : Q) (w4 : W) :
  let o := process_video env cfg yt_api video index n_videos
             (OUTPUT_FOLDER cfg) w in
  let path := target (OUTPUT_FOLDER cfg) (video_id video) t in
  value o = inr true ->
  title video = inr t ->
  path_exists env path (world o) = (true, w2) ->
  getmtime env path w2 = (inr mod_time, w3) ->
  time_now env w3 = (now, w4) ->
  let stats' := value (main_body env cfg yt_api n_videos stats
                         (index, video) w) in
  ((now - mod_time < 5)%Q -> stats' = inr (add_success stats))
  /\ ((5 <= now - mod_time)%Q -> stats' = inr (add_skipped stats)).
Proof.
  intros o path Ho Et Ex Em En stats'. subst stats' o path.
  rewrite (main_body_classified _ _ _ _ _ _ _ _ _ _ _ _ _ _ Ho Et Ex Em En).
  cbn [value].
  destruct (Qlt_le_dec (now - mod_time) 5) as [Hlt|Hge]; split; intros H;
    try reflexivity.
  - exfalso. exact (Qlt_not_le _ _ Hlt H).
  - exfalso. exact (Qlt_not_le _ _ H Hge).
Qed.

Lemma fresh_file_heuristic_witness :
  value (main_body Scenario.down_env Sim.default_config ApiDirect 1
           Scenario.one_video (1, Scenario.video_a)
           (Sim.start (Scenario.folder_with 3) 100))
  = inr (add_skipped Scenario.one_video).
Proof.
  apply (proj2 (fresh_file_heuristic Scenario.down_env Sim.default_config
           ApiDirect 1 Scenario.one_video 1 Scenario.video_a
           (Sim.start (Scenario.folder_with 3) 100) "Intro: part 1/2"
           (Sim.State (Scenario.folder_with 3) 100 0 2) 3
           (Sim.State (Scenario.folder_with 3) 100 0 2) 100
           (Sim.State (Scenario.folder_with 3) 100 0 2)
           ltac:(vm_compute; reflexivity) eq_refl
           ltac:(vm_compute; reflexivity) ltac:(vm_compute; reflexivity)
           eq_refl)).
  vm_compute. discriminate.
Defined.

(** C7, as stated, fails on a file whose modification time lies in the
    future: the file of [video_a] is there, stamped 1000 while the clock
    shows 100, so the stamp is 900 seconds away from the current time, and
    the video is counted in [success]. *)
Lemma within_five_seconds_fails :
  ~ (value (main_body Scenario.down_env Sim.default_config ApiDirect 1
              Scenario.one_video (1, Scenario.video_a)
              (Sim.start (Scenario.folder_with 1000) 100))
     = inr (add_success Scenario.one_video)
     <-> within 5 1000 100).
Proof.
  intros [H _]. specialize (H ltac:(vm_compute; reflexivity)).
  vm_compute in H. apply H. reflexivity.
Qed.

(* ================================================================== *)
(** * main *)

Section Main.
Context {W : Type}.
Variable env : Env W.
Variable cfg : Config.

Lemma initialize_api_setup w :
  Forall (fun ev => is_setup ev = true) (trace (initialize_api env cfg w)).
Proof. unfold initialize_api. trace_steps; reflexivity. Qed.

Lemma fetch_playlist_no_summary url w :
  Forall (fun ev => is_summary ev = false) (trace (fetch_playlist env url w)).
Proof. unfold fetch_playlist. trace_steps; reflexivity. Qed.

Lemma main_loop_no_summary yt_api videos w :
  Forall (fun ev => is_summary ev = false)
         (trace (main_loop env cfg yt_api videos w)).
Proof.
  unfold main_loop, main_body, process_video, process_video_try,
    fetch_transcript_with_retry, retry_body, exists_, getmtime_, time_,
    write, fetch, sleep.
  trace_steps; reflexivity.
Qed.

(** A playlist address that the pattern does not match: the validation
    error is logged and there is no playlist. *)
Lemma fetch_playlist_invalid url w :
  Re.match_ (unicode_alnum env) playlist_pattern url = false ->
  fetch_playlist env url w
  = Outcome (inr None) w
      [EvLog ERROR (MsgInvalid ("Invalid playlist URL format: " ++ url))].
Proof.
  intros H. unfold fetch_playlist, validate_playlist_url. rewrite H.
  reflexivity.
Qed.

End Main.

(** C5. When the configured playlist address does not match the pattern,
    [main] returns before anything is done for a video: its events are
    those of the set-up only.  No transcript is fetched or written, the
    playlist service is not asked, and no line of the summary is logged. *)
Theorem invalid_playlist_url_aborts {W : Type} (env : Env W) (cfg : Config)
    (w : W) :
  Re.match_ (unicode_alnum env) playlist_pattern (PLAYLIST_URL cfg) = false ->
  Forall (fun ev => is_setup ev = true) (trace (main env cfg w))
  /\ Forall (fun ev => is_write ev = false) (trace (main env cfg w))
  /\ reported (trace (main env cfg w)) = None.
Proof.
  intros Hurl.
  assert (Hsetup : Forall (fun ev => is_setup ev = true)
                          (trace (main env cfg w))).
  { unfold main.
    do 5 (apply trace_bind; [trace_steps; reflexivity | intros ? _]).
    apply trace_bind; [apply initialize_api_setup|].
    intros [yt_api|] _; [|constructor].
    apply trace_bind.
    - rewrite (fetch_playlist_invalid env _ _ Hurl). repeat constructor.
    - intros playlist Hp. rewrite (fetch_playlist_invalid env _ _ Hurl) in Hp.
      injection Hp as <-. constructor. }
  split; [exact Hsetup|]. split.
  - eapply Forall_impl; [exact Hsetup|].
    intros [] Hev; try reflexivity; discriminate Hev.
  - induction Hsetup as [|ev tr Hev _ IH]; [reflexivity|].
    revert IH. unfold reported, logged. simpl.
    destruct ev as [l []| | | | | | | | | |]; try discriminate Hev; auto.
Qed.

Lemma invalid_playlist_url_aborts_witness :
  Forall (fun ev => is_setup ev = true)
    (trace (main Scenario.down_env
              (Scenario.with_url "https://www.youtube.com/watch?v=dQw4w9WgXcQ"
                                 Sim.default_config)
              (Sim.start ∅ 100))).
Proof.
  apply (invalid_playlist_url_aborts Scenario.down_env
           (Scenario.with_url "https://www.youtube.com/watch?v=dQw4w9WgXcQ"
                              Sim.default_config)
           (Sim.start ∅ 100)).
  vm_compute. reflexivity.
Defined.

(* ================================================================== *)
(** * The counters of the summary *)

Section Summary.
Context {W : Type}.
Variable env : Env W.
Variable cfg : Config.

Lemma run_call {A} (ev : event) (f : W -> result A * W) w r w' :
  f w = (r, w') -> call ev f w = Outcome r w' [ev].
Proof. intros H. unfold call. now rewrite H. Qed.

(** The six first lines of [print_summary]. *)
Lemma print_summary_trace stats (w : W) :
  exists more,
    print_summary cfg stats w
    = Outcome (inr tt) w
        ([EvLog INFO (MsgRule true "=");
          EvLog INFO MsgSummaryHeader;
          EvLog INFO (MsgTotalVideos (total stats));
          EvLog INFO (MsgSuccessful (success stats));
          EvLog INFO (MsgSkipped (skipped stats));
          EvLog INFO (MsgFailed (failed stats))] ++ more)%list.
Proof.
  unfold print_summary, log, emit, mbind, M_bind, bind, mret, M_ret, ret.
  destruct (0 <? total stats)%Z; simpl; eexists; reflexivity.
Qed.

Lemma summary_counter ev : is_summary ev = false -> is_counter ev = false.
Proof. destruct ev as [l []| | | | | | | | | |]; simpl; congruence. Qed.

Lemma logged_quiet pick pre tr :
  (forall l m n, pick m = Some n -> is_counter (EvLog l m) = true) ->
  Forall (fun ev => is_counter ev = false) pre ->
  logged pick (pre ++ tr) = logged pick tr.
Proof.
  intros Hpick. unfold logged. induction 1 as [|ev pre Hev _ IH]; simpl;
    [reflexivity|].
  destruct ev as [l m| | | | | | | | | |]; simpl; try exact IH.
  destruct (pick m) as [n|] eqn:Em; [|exact IH].
  rewrite (Hpick l m n Em) in Hev. discriminate.
Qed.

Lemma reported_quiet pre tr :
  Forall (fun ev => is_counter ev = false) pre ->
  reported (pre ++ tr) = reported tr.
Proof.
  intros Hq. unfold reported.
  rewrite !(logged_quiet _ pre tr) by
    (try exact Hq; intros l m k; destruct m; try discriminate; reflexivity).
  reflexivity.
Qed.

Lemma reported_none tr :
  Forall (fun ev => is_counter ev = false) tr -> reported tr = None.
Proof.
  intros Hq. rewrite <- (app_nil_r tr). rewrite (reported_quiet _ _ Hq).
  reflexivity.
Qed.


End Summary.



(* ================================================================== *)
(** * Two runs on the reference world *)

(** The default configuration on a service that is down: three attempts,
    waits of one and two seconds, then the fallback. *)
Example default_backoff :
  waits (trace (Scenario.exhausted 3)) = [inject_Z 1; inject_Z 2]
  /\ List.filter is_fetch (trace (Scenario.exhausted 3))
     = [EvFetch "dQw4w9WgXcQ" english; EvFetch "dQw4w9WgXcQ" english;
        EvFetch "dQw4w9WgXcQ" english; EvFetch "dQw4w9WgXcQ" None].
Proof. split; vm_compute; reflexivity. Qed.

(** The scenario of the specification: of three videos the first has its
    file already, the second is fetched at the first attempt and the third
    fails at every attempt.  The summary reports 3, 1, 1 and 1, and the
    folder holds two files, the old one untouched. *)
Example three_videos_run :
  let o := main Scenario.three_env Sim.default_config
             (Sim.start (Scenario.folder_with 3) 100) in
  value o = inr tt
  /\ reported (trace o)
     = Some {| total := 3; success := 1; skipped := 1; failed := 1 |}
  /\ Sim.files (world o)
     = <["transcripts/[c] - Subnetting.txt" :=
           ("hello" ++ Sim.newline ++ "world", 100%Q)]>
         (Scenario.folder_with 3)
  /\ size (Sim.files (world o)) = 2%nat.
Proof. vm_compute. repeat split; reflexivity. Qed.

(* ================================================================== *)
(** * More on sanitize_filename *)

Lemma append_assoc (a b c : string) : (a ++ b) ++ c = a ++ (b ++ c).
Proof.
  induction a as [|x a IH]; [reflexivity|].
  now rewrite !append_cons, IH.
Qed.

Lemma clean_clean (c : ascii) : clean (clean c) = clean c.
Proof.
  pose proof (clean_legal c) as H. unfold clean at 1.
  now rewrite (bool_decide_eq_false_2 _ H).
Qed.

(** X1. Sanitizing twice is sanitizing once. *)
Theorem sanitize_filename_idempotent (title : string) :
  sanitize_filename (sanitize_filename title) = sanitize_filename title.
Proof.
  induction title as [|c s IH]; [reflexivity|].
  now rewrite !sanitize_cons, clean_clean, IH.
Qed.

(** X2. A title without any of the nine characters is returned as it
    is. *)
Theorem sanitize_filename_legal_title (title : string) :
  Forall (fun c => c ∉ illegal_chars) (list_ascii_of_string title) ->
  sanitize_filename title = title.
Proof.
  induction title as [|c s IH]; simpl; intros H; [reflexivity|].
  inversion H as [|? ? Hc Hs]; subst.
  rewrite sanitize_cons, (IH Hs). unfold clean.
  now rewrite (bool_decide_eq_false_2 _ Hc).
Qed.

Lemma sanitize_filename_legal_title_witness :
  sanitize_filename "CCNA Day 1 - Network Devices"
  = "CCNA Day 1 - Network Devices".
Proof.
  apply (sanitize_filename_legal_title "CCNA Day 1 - Network Devices").
  repeat (constructor;
          [intros H; apply list_elem_of_In in H; simpl in H;
           intuition discriminate|]).
  constructor.
Defined.

(** X3. The result has the length of the title, and sanitizing commutes
    with concatenation. *)
Theorem sanitize_filename_length_append (a b : string) :
  String.length (sanitize_filename a) = String.length a
  /\ sanitize_filename (a ++ b) = sanitize_filename a ++ sanitize_filename b.
Proof.
  induction a as [|c s [IH1 IH2]]; [split; reflexivity|].
  rewrite append_cons, !sanitize_cons, append_cons, IH2. simpl.
  now rewrite IH1.
Qed.

(* ================================================================== *)
(** * More on validate_playlist_url *)

Module PatternFacts.
Import Re.

Section Pattern.
Variable ua : ascii -> bool.

Lemma matches_Str (s : string) : matches ua (Str s) s.
Proof.
  induction s as [|c s IH]; simpl; [constructor|].
  change (String c s) with (String c EmptyString ++ s).
  constructor; [|exact IH].
  constructor. unfold set_has. simpl. now rewrite Ascii.eqb_refl.
Qed.

Lemma matches_Opt_skip r : matches ua (Opt r) EmptyString.
Proof. apply m_alt_r. constructor. Qed.

Lemma matches_id_star (id : string) :
  Forall (fun c => is_id_char ua c = true) (list_ascii_of_string id) ->
  matches ua (Star (Set_ [Word; Chr "-"])) id.
Proof.
  induction id as [|c s IH]; simpl; intros H; [constructor|].
  inversion H as [|? ? Hc Hs]; subst.
  change (String c s) with (String c EmptyString ++ s).
  constructor; [|now apply IH].
  constructor. unfold set_has. simpl. unfold is_id_char in Hc.
  now rewrite orb_false_r.
Qed.

Lemma matches_id (id : string) :
  id <> EmptyString ->
  Forall (fun c => is_id_char ua c = true) (list_ascii_of_string id) ->
  matches ua (Plus (Set_ [Word; Chr "-"])) id.
Proof.
  destruct id as [|c s]; [congruence|]. simpl. intros _ H.
  inversion H as [|? ? Hc Hs]; subst.
  change (String c s) with (String c EmptyString ++ s).
  constructor; [|now apply matches_id_star].
  constructor. unfold set_has. simpl. unfold is_id_char in Hc.
  now rewrite orb_false_r.
Qed.

Lemma matches_scheme (scheme : string) :
  In scheme [EmptyString; "http://"; "https://"] ->
  matches ua (Opt (Seq (Str "http") (Seq (Opt (Lit "s")) (Str "://"))))
    scheme.
Proof.
  intros [<-|[<-|[<-|[]]]].
  - apply matches_Opt_skip.
  - apply m_alt_l.
    change "http://" with ("http" ++ (EmptyString ++ "://")).
    constructor; [apply matches_Str|].
    constructor; [apply matches_Opt_skip | apply matches_Str].
  - apply m_alt_l.
    change "https://" with ("http" ++ ("s" ++ "://")).
    constructor; [apply matches_Str|].
    constructor; [|apply matches_Str].
    apply m_alt_l. now constructor.
Qed.

Lemma matches_www (www : string) :
  In www [EmptyString; "www."] -> matches ua (Opt (Str "www.")) www.
Proof.
  intros [<-|[<-|[]]]; [apply matches_Opt_skip|].
  apply m_alt_l. apply matches_Str.
Qed.

Lemma matches_host (host : string) :
  In host ["youtube.com/playlist?list="; "youtu.be/"] ->
  matches ua (Alt (Str "youtube.com/playlist?list=") (Str "youtu.be/")) host.
Proof.
  intros [<-|[<-|[]]]; [apply m_alt_l | apply m_alt_r]; apply matches_Str.
Qed.

(** A pattern that is dead by its shape matches no prefix. *)
Lemma dead_nullable r : dead r = true -> nullable r = false.
Proof.
  induction r as [| |items|r1 IH1 r2 IH2|r1 IH1 r2 IH2|r IH]; simpl;
    intros H; try discriminate; try reflexivity.
  - apply orb_true_iff in H as [H|H];
      rewrite ?(IH1 H), ?(IH2 H), ?andb_false_r; reflexivity.
  - apply andb_true_iff in H as [H1 H2]. now rewrite IH1, IH2.
Qed.

Lemma dead_deriv c r : dead r = true -> dead (deriv ua c r) = true.
Proof.
  induction r as [| |items|r1 IH1 r2 IH2|r1 IH1 r2 IH2|r IH]; simpl;
    intros H; try discriminate; try reflexivity.
  - apply orb_true_iff in H as [H|H].
    + rewrite (dead_nullable r1 H). simpl. now rewrite (IH1 H).
    + destruct (nullable r1); simpl; rewrite H, ?(IH2 H), ?orb_true_r;
        reflexivity.
  - apply andb_true_iff in H as [H1 H2]. now rewrite IH1, IH2.
Qed.

Lemma dead_match s : forall r, dead r = true -> match_ ua r s = false.
Proof.
  induction s as [|c s IH]; intros r H; simpl;
    rewrite (dead_nullable r H); [reflexivity|].
  apply IH. now apply dead_deriv.
Qed.

End Pattern.
End PatternFacts.

(** X4. Every address of the usual shape is accepted: an optional
    http:// or https://, an optional www., one of the two hosts, and a
    non-empty identifier of word characters and hyphens, followed by
    anything. *)
Theorem validate_accepts_playlist_urls (ua : ascii -> bool)
    (scheme www host id rest : string) :
  In scheme [EmptyString; "http://"; "https://"] ->
  In www [EmptyString; "www."] ->
  In host ["youtube.com/playlist?list="; "youtu.be/"] ->
  id <> EmptyString ->
  Forall (fun c => is_id_char ua c = true) (list_ascii_of_string id) ->
  validate_playlist_url ua (scheme ++ www ++ host ++ id ++ rest)
  = inr (scheme ++ www ++ host ++ id ++ rest).
Proof.
  intros Hs Hw Hh Hne Hid. apply validate_accepts_iff.
  replace (scheme ++ www ++ host ++ id ++ rest)
    with ((scheme ++ www ++ host ++ id) ++ rest)
    by now rewrite !append_assoc.
  apply ReFacts.match_prefix. unfold playlist_pattern.
  constructor; [now apply PatternFacts.matches_scheme|].
  constructor; [now apply PatternFacts.matches_www|].
  constructor; [now apply PatternFacts.matches_host|].
  now apply PatternFacts.matches_id.
Qed.

Lemma validate_accepts_playlist_urls_witness :
  validate_playlist_url (fun _ => false)
    ("https://" ++ "www." ++ "youtube.com/playlist?list="
     ++ "PLxbwE86jKRgMpuZuLBivzlM8s2Dk5lXBQ" ++ "&index=2")
  = inr ("https://" ++ "www." ++ "youtube.com/playlist?list="
         ++ "PLxbwE86jKRgMpuZuLBivzlM8s2Dk5lXBQ" ++ "&index=2").
Proof.
  apply (validate_accepts_playlist_urls (fun _ => false)
           "https://" "www." "youtube.com/playlist?list="
           "PLxbwE86jKRgMpuZuLBivzlM8s2Dk5lXBQ" "&index=2").
  - simpl. auto.
  - simpl. auto.
  - simpl. auto.
  - discriminate.
  - cbn [list_ascii_of_string].
    repeat (constructor; [vm_compute; reflexivity|]). constructor.
Defined.

(** X5. The pattern is anchored at the first character and nothing is
    stripped: the empty string, and every string whose first character is
    not h, w or y (a leading blank, say), raises the ValueError with the
    address in its message. *)
Theorem validate_rejects_other_starts (ua : ascii -> bool) (url : string) :
  may_start url = false ->
  validate_playlist_url ua url
  = inl (ValueError ("Invalid playlist URL format: " ++ url)).
Proof.
  intros H. unfold validate_playlist_url.
  assert (Hno : Re.match_ ua playlist_pattern url = false);
    [|now rewrite Hno].
  destruct url as [|c s]; [reflexivity|].
  simpl in H. rewrite !orb_false_iff in H. destruct H as (Hh & Hw & Hy & _).
  cbn [Re.match_]. change (Re.nullable playlist_pattern) with false.
  rewrite orb_false_l. apply PatternFacts.dead_match.
  unfold playlist_pattern. simpl. unfold Re.set_has. simpl.
  rewrite Hh, Hw, Hy. reflexivity.
Qed.

Lemma validate_rejects_other_starts_witness :
  validate_playlist_url (fun _ => false)
    " https://www.youtube.com/playlist?list=PL1"
  = inl (ValueError ("Invalid playlist URL format: "
                     ++ " https://www.youtube.com/playlist?list=PL1")).
Proof.
  apply (validate_rejects_other_starts (fun _ => false)
           " https://www.youtube.com/playlist?list=PL1").
  reflexivity.
Defined.

(* ================================================================== *)
(** * More on fetch_transcript_with_retry *)

Section RetryMore.
Context {W : Type}.
Variable env : Env W.
Variable cfg : Config.
Variable yt_api : YtApi.
Variable video : string.
Variable n : Z.

Local Abbreviation loop a m :=
  (for_return (map Z.of_nat (seq a m)) (retry_body env yt_api video n)).


Section Fallback.
(** The fetch that prefers English always raises, the other one always
    answers. *)
Hypothesis no_english : forall w,
  exists e w', api_fetch env yt_api video english w = (inl e, w').
Hypothesis any_language : forall w,
  exists t w', api_fetch env yt_api video None w = (inr t, w').


End Fallback.
End RetryMore.



(** X7. When the first fetch answers, its transcript is returned at once:
    one request, no wait, no fallback, no log line. *)
Theorem fetch_first_attempt {W : Type} (env : Env W) (cfg : Config)
    (yt_api : YtApi) (video : string) (max_retries : option Z) (w w1 : W)
    (t : transcript) :
  1 <= default (RETRY_ATTEMPTS cfg) max_retries ->
  api_fetch env yt_api video english w = (inr t, w1) ->
  fetch_transcript_with_retry env cfg yt_api video max_retries w
  = Outcome (inr (Some t)) w1 [EvFetch video english].
Proof.
  intros Hn E. rewrite fetch_retry_unfold. unfold range.
  destruct (Z.to_nat (default (RETRY_ATTEMPTS cfg) max_retries))
    as [|m] eqn:Em; [lia|].
  rewrite (loop_returned env yt_api video _ 0%nat m _ _ _ _
             (retry_body_fetched env _ _ _ _ _ _ _ E)).
  reflexivity.
Qed.

Lemma fetch_first_attempt_witness :
  fetch_transcript_with_retry Scenario.three_env Sim.default_config
    ApiDirect "c" None (Sim.start ∅ 100)
  = Outcome (inr (Some ["hello"; "world"])) (Sim.State ∅ 100 1 0)
      [EvFetch "c" english].
Proof.
  apply (fetch_first_attempt Scenario.three_env Sim.default_config
           ApiDirect "c" None (Sim.start ∅ 100)).
  - simpl. lia.
  - reflexivity.
Defined.







(* ================================================================== *)
(** * More on process_video *)

Section Download.
Context {W : Type}.
Variable env : Env W.
Variable cfg : Config.
Variable yt_api : YtApi.
Variable video : Video.
Variable index total : Z.
Variable folder : string.

(** The file is not there, the transcript is fetched, formatted and
    written: what is left is the pause. *)
Lemma process_video_try_written w t w1 data w2 tr text w3 :
  title video = inr t ->
  path_exists env (target folder (video_id video) t) w = (false, w1) ->
  fetch_transcript_with_retry env cfg yt_api (video_id video) None w1
    = Outcome (inr (Some data)) w2 tr ->
  format_transcript env data = inr text ->
  write_file env (target folder (video_id video) t) text w2 = (inr tt, w3) ->
  let pause := (sleep env (RATE_LIMIT_DELAY cfg) ≫= fun _ => mret true) w3 in
  process_video_try env cfg yt_api video index total folder w
  = Outcome (value pause) (world pause)
      ([EvExists (target folder (video_id video) t);
        EvLog INFO (MsgProcessing index total
                      (take 50 (sanitize_filename t)))]
       ++ tr
       ++ [EvWrite (target folder (video_id video) t) text;
           EvLog INFO MsgSaved]
       ++ trace pause)%list.
Proof.
  intros Et Ex Ef Efmt Ew pause. unfold process_video_try.
  rewrite (run_bind_inr _ _ w w t []) by (unfold lift; now rewrite Et).
  fold (target folder (video_id video) t).
  rewrite (run_bind_inr _ _ w w1 false
             [EvExists (target folder (video_id video) t)])
    by (unfold exists_, call; now rewrite Ex).
  cbn [value world trace].
  rewrite (run_bind_inr _ _ w1 w1 tt
             [EvLog INFO (MsgProcessing index total
                            (take 50 (sanitize_filename t)))])
    by reflexivity.
  cbn [value world trace].
  rewrite (run_bind_inr _ _ _ _ _ _ Ef). cbn [value world trace].
  rewrite (run_bind_inr _ _ w2 w2 text []) by (unfold lift; now rewrite Efmt).
  cbn [value world trace].
  rewrite (run_bind_inr _ _ w2 w3 tt
             [EvWrite (target folder (video_id video) t) text])
    by (unfold write, call; now rewrite Ew).
  cbn [value world trace].
  rewrite (run_bind_inr _ _ w3 w3 tt [EvLog INFO MsgSaved]) by reflexivity.
  cbn [value world trace]. fold pause. reflexivity.
Qed.

(** When time.sleep refuses the pause, the exception is caught and the
    video is reported as failed, with its transcript written. *)
Lemma process_video_pause_raises w t w1 data w2 tr text w3 e :
  title video = inr t ->
  path_exists env (target folder (video_id video) t) w = (false, w1) ->
  fetch_transcript_with_retry env cfg yt_api (video_id video) None w1
    = Outcome (inr (Some data)) w2 tr ->
  format_transcript env data = inr text ->
  write_file env (target folder (video_id video) t) text w2 = (inr tt, w3) ->
  sleep env (RATE_LIMIT_DELAY cfg) w3 = Outcome (inl e) w3 [] ->
  process_video env cfg yt_api video index total folder w
  = Outcome (inr false) w3
      ([EvExists (target folder (video_id video) t);
        EvLog INFO (MsgProcessing index total
                      (take 50 (sanitize_filename t)))]
       ++ tr
       ++ [EvWrite (target folder (video_id video) t) text;
           EvLog INFO MsgSaved;
           EvLog ERROR (MsgVideoError index total (take 80 (str e)))])%list.
Proof.
  intros Et Ex Ef Efmt Ew Es.
  pose proof (process_video_try_written w t w1 data w2 tr text w3
                Et Ex Ef Efmt Ew) as Htry.
  cbv zeta in Htry. rewrite (run_bind_inl _ _ _ _ _ _ Es) in Htry.
  cbn [value world trace] in Htry.
  rewrite (process_video_caught env cfg yt_api video index total folder w e)
    by now rewrite Htry.
  rewrite Htry. cbn [value world trace]. f_equal.
  rewrite app_nil_r, <- !app_assoc. reflexivity.
Qed.

End Download.



(** X11. With a negative RATE_LIMIT_DELAY, of a size that fits the
    nanoseconds of the interpreter, the same video is reported as failed
    although its transcript has been written: time.sleep raises ValueError
    after the write, and the handler of [process_video] turns it into
    False. *)
Theorem process_video_negative_delay {W : Type} (env : Env W) (cfg : Config)
    (yt_api : YtApi) (video : Video) (index total : Z) (folder : string)
    (w : W) (t : string) (w1 : W) (data : transcript) (w2 : W)
    (tr : list event) (text : string) (w3 : W) :
  title video = inr t ->
  path_exists env (target folder (video_id video) t) w = (false, w1) ->
  fetch_transcript_with_retry env cfg yt_api (video_id video) None w1
    = Outcome (inr (Some data)) w2 tr ->
  format_transcript env data = inr text ->
  write_file env (target folder (video_id video) t) text w2 = (inr tt, w3) ->
  (RATE_LIMIT_DELAY cfg < 0)%Q ->
  fits_int64 (nanoseconds (RATE_LIMIT_DELAY cfg)) = true ->
  process_video env cfg yt_api video index total folder w
  = Outcome (inr false) w3
      ([EvExists (target folder (video_id video) t);
        EvLog INFO (MsgProcessing index total
                      (take 50 (sanitize_filename t)))]
       ++ tr
       ++ [EvWrite (target folder (video_id video) t) text;
           EvLog INFO MsgSaved;
           EvLog ERROR (MsgVideoError index total
                          "sleep length must be non-negative")])%list.
Proof.
  intros Et Ex Ef Efmt Ew Hd Hfit.
  exact (process_video_pause_raises env cfg yt_api video index total folder
           w t w1 data w2 tr text w3 sleep_negative Et Ex Ef Efmt Ew
           (sleep_refuses env _ w3 Hd Hfit)).
Qed.

Lemma process_video_negative_delay_witness :
  value (process_video Scenario.three_env Scenario2.hasty_config ApiDirect
           Scenario.video_c 2 3 "transcripts" (Sim.start ∅ 100))
  = inr false
  /\ Sim.files (world (process_video Scenario.three_env
                         Scenario2.hasty_config ApiDirect Scenario.video_c
                         2 3 "transcripts" (Sim.start ∅ 100)))
     !! "transcripts/[c] - Subnetting.txt"
     = Some ("hello" ++ Sim.newline ++ "world", 100%Q).
Proof.
  assert (H : process_video Scenario.three_env Scenario2.hasty_config
                ApiDirect Scenario.video_c 2 3 "transcripts"
                (Sim.start ∅ 100)
              = Outcome (inr false)
                  (Sim.State {[ "transcripts/[c] - Subnetting.txt" :=
                       ("hello" ++ Sim.newline ++ "world", 100%Q) ]}
                     100 1 1)
                  [EvExists "transcripts/[c] - Subnetting.txt";
                   EvLog INFO (MsgProcessing 2 3 "Subnetting");
                   EvFetch "c" english;
                   EvWrite "transcripts/[c] - Subnetting.txt"
                           ("hello" ++ Sim.newline ++ "world");
                   EvLog INFO MsgSaved;
                   EvLog ERROR (MsgVideoError 2 3
                                  "sleep length must be non-negative")]).
  { refine (eq_trans (process_video_negative_delay Scenario.three_env
             Scenario2.hasty_config
             ApiDirect Scenario.video_c 2 3 "transcripts" (Sim.start ∅ 100)
             "Subnetting" (Sim.State ∅ 100 0 1) ["hello"; "world"]
             (Sim.State ∅ 100 1 1) [EvFetch "c" english]
             ("hello" ++ Sim.newline ++ "world")
             (Sim.State {[ "transcripts/[c] - Subnetting.txt" :=
                             ("hello" ++ Sim.newline ++ "world", 100%Q) ]}
                        100 1 1) _ _ _ _ _ _ _) _);
      vm_compute; reflexivity. }
  rewrite H. split; vm_compute; reflexivity.
Defined.



(* ================================================================== *)
(** * More on initialize_api, fetch_playlist and main *)

Section MainMore.
Context {W : Type}.
Variable env : Env W.
Variable cfg : Config.

Lemma initialize_api_no_credentials w :
  USE_PROXY cfg = true ->
  falsy (PROXY_USER cfg) || falsy (PROXY_PASS cfg) = true ->
  initialize_api env cfg w
  = Outcome (inr None) w
      [EvLog ERROR MsgProxyNoCredentials; EvLog INFO MsgProxyRequired;
       EvLog INFO MsgProxyHint].
Proof.
  intros Hp Hc. unfold initialize_api. rewrite Hp, Hc. reflexivity.
Qed.

Lemma fetch_playlist_listed url w videos w1 :
  Re.match_ (unicode_alnum env) playlist_pattern url = true ->
  playlist_videos env url w = (inr videos, w1) ->
  fetch_playlist env url w
  = Outcome (inr (Some videos)) w1
      [EvLog INFO (MsgFetchingPlaylist url); EvListPlaylist url;
       EvLog INFO (MsgFound (Z.of_nat (length videos)))].
Proof.
  intros Hm El.
  unfold fetch_playlist, validate_playlist_url, try_except, mbind, M_bind,
    bind, lift, log, emit, call.
  rewrite Hm. cbn [negb]. rewrite El. reflexivity.
Qed.

Lemma fetch_playlist_unlisted url w e w1 :
  Re.match_ (unicode_alnum env) playlist_pattern url = true ->
  playlist_videos env url w = (inl e, w1) ->
  fetch_playlist env url w
  = Outcome (inr None) w1
      [EvLog INFO (MsgFetchingPlaylist url); EvListPlaylist url;
       EvLog ERROR (match e with
                    | ValueError _ => MsgInvalid (str e)
                    | Exception _ => MsgPlaylistError (str e)
                    end)].
Proof.
  intros Hm El.
  unfold fetch_playlist, validate_playlist_url, try_except, mbind, M_bind,
    bind, lift, log, emit, call.
  rewrite Hm. cbn [negb]. rewrite El. destruct e; reflexivity.
Qed.

(** [main] up to the playlist, when the folder can be made and there is
    an API: what is left is what [main] does with the playlist. *)
Lemma main_until_playlist w w0 yt_api w1 t1 playlist w2 t2 :
  makedirs env (OUTPUT_FOLDER cfg) w = (inr tt, w0) ->
  initialize_api env cfg w0 = Outcome (inr (Some yt_api)) w1 t1 ->
  fetch_playlist env (PLAYLIST_URL cfg) w1 = Outcome (inr playlist) w2 t2 ->
  let rest :=
    match playlist with
    | None => mret tt
    | Some videos =>
        log INFO MsgStarting;;
        log INFO (MsgRule false "-");;
        stats ← main_loop env cfg yt_api videos;
        log INFO (MsgRule false "-");;
        print_summary cfg stats;;
        log INFO MsgComplete
    end w2 in
  main env cfg w
  = Outcome (value rest) (world rest)
      ([EvLog INFO (MsgRule false "="); EvLog INFO MsgBanner;
        EvLog INFO (MsgRule false "="); EvMakedirs (OUTPUT_FOLDER cfg);
        EvLog INFO (MsgOutputDir (OUTPUT_FOLDER cfg))]
       ++ t1 ++ t2 ++ trace rest)%list.
Proof.
  intros Emk Ei Ef rest. unfold main.
  do 3 (rewrite (run_bind_inr (W := W) _ _ _ _ _ _ eq_refl);
        cbn [value world trace]).
  rewrite (run_bind_inr _ _ _ _ _ _ (run_call _ _ _ _ _ Emk));
    cbn [value world trace].
  rewrite (run_bind_inr (W := W) _ _ _ _ _ _ eq_refl);
    cbn [value world trace].
  rewrite (run_bind_inr _ _ _ _ _ _ Ei); cbn [value world trace].
  rewrite (run_bind_inr _ _ _ _ _ _ Ef); cbn [value world trace].
  fold rest. reflexivity.
Qed.

End MainMore.

(** X12. Proxy asked for without both credentials (a missing or empty
    user name or password): no API object is made, and [main] returns
    after the three lines that say so, before the playlist is looked at. *)
Theorem main_without_credentials {W : Type} (env : Env W) (cfg : Config)
    (w w0 : W) :
  USE_PROXY cfg = true ->
  falsy (PROXY_USER cfg) || falsy (PROXY_PASS cfg) = true ->
  makedirs env (OUTPUT_FOLDER cfg) w = (inr tt, w0) ->
  main env cfg w
  = Outcome (inr tt) w0
      [EvLog INFO (MsgRule false "="); EvLog INFO MsgBanner;
       EvLog INFO (MsgRule false "="); EvMakedirs (OUTPUT_FOLDER cfg);
       EvLog INFO (MsgOutputDir (OUTPUT_FOLDER cfg));
       EvLog ERROR MsgProxyNoCredentials; EvLog INFO MsgProxyRequired;
       EvLog INFO MsgProxyHint].
Proof.
  intros Hp Hc Emk. unfold main.
  do 3 (rewrite (run_bind_inr (W := W) _ _ _ _ _ _ eq_refl);
        cbn [value world trace]).
  rewrite (run_bind_inr _ _ _ _ _ _ (run_call _ _ _ _ _ Emk));
    cbn [value world trace].
  rewrite (run_bind_inr (W := W) _ _ _ _ _ _ eq_refl);
    cbn [value world trace].
  rewrite (run_bind_inr _ _ _ _ _ _
             (initialize_api_no_credentials env cfg w0 Hp Hc)).
  reflexivity.
Qed.

Lemma main_without_credentials_witness :
  main Scenario.down_env Scenario2.proxy_without_password (Sim.start ∅ 100)
  = Outcome (inr tt) (Sim.start ∅ 100)
      [EvLog INFO (MsgRule false "="); EvLog INFO MsgBanner;
       EvLog INFO (MsgRule false "="); EvMakedirs "transcripts";
       EvLog INFO (MsgOutputDir "transcripts");
       EvLog ERROR MsgProxyNoCredentials; EvLog INFO MsgProxyRequired;
       EvLog INFO MsgProxyHint].
Proof.
  apply (main_without_credentials Scenario.down_env
           Scenario2.proxy_without_password).
  - reflexivity.
  - reflexivity.
  - reflexivity.
Defined.

(** X13. [fetch_playlist] raises nothing.  It returns the videos exactly
    when the address matches the pattern and the playlist service lists
    them; a ValueError of the validation and any exception of the listing
    give None. *)
Theorem fetch_playlist_result {W : Type} (env : Env W) (url : string)
    (w : W) :
  exists r,
    value (fetch_playlist env url w) = inr r
    /\ forall videos,
         r = Some videos
         <-> Re.match_ (unicode_alnum env) playlist_pattern url = true
             /\ exists w1, playlist_videos env url w = (inr videos, w1).
Proof.
  destruct (Re.match_ (unicode_alnum env) playlist_pattern url) eqn:Hm.
  - destruct (playlist_videos env url w) as [[e|videos] w1] eqn:El.
    + exists None. rewrite (fetch_playlist_unlisted env url w e w1 Hm El).
      split; [reflexivity|]. intros videos. split; [discriminate|].
      intros [_ [w2 H]]. discriminate.
    + exists (Some videos).
      rewrite (fetch_playlist_listed env url w videos w1 Hm El).
      split; [reflexivity|]. intros videos'. split.
      * intros [= <-]. eauto.
      * intros [_ [w2 [= -> _]]]. reflexivity.
  - exists None. rewrite (fetch_playlist_invalid env url w Hm).
    split; [reflexivity|]. intros videos. split; [discriminate|].
    intros [H _]. discriminate.
Qed.

(** X14. When the playlist service raises, [main] logs the error and
    returns: nothing is done for any video and no summary is logged. *)
Theorem main_without_playlist {W : Type} (env : Env W) (cfg : Config)
    (w w0 : W) (yt_api : YtApi) (w1 : W) (t1 : list event) (e : exn)
    (w2 : W) :
  makedirs env (OUTPUT_FOLDER cfg) w = (inr tt, w0) ->
  initialize_api env cfg w0 = Outcome (inr (Some yt_api)) w1 t1 ->
  Re.match_ (unicode_alnum env) playlist_pattern (PLAYLIST_URL cfg) = true ->
  playlist_videos env (PLAYLIST_URL cfg) w1 = (inl e, w2) ->
  main env cfg w
  = Outcome (inr tt) w2
      ([EvLog INFO (MsgRule false "="); EvLog INFO MsgBanner;
        EvLog INFO (MsgRule false "="); EvMakedirs (OUTPUT_FOLDER cfg);
        EvLog INFO (MsgOutputDir (OUTPUT_FOLDER cfg))]
       ++ t1
       ++ [EvLog INFO (MsgFetchingPlaylist (PLAYLIST_URL cfg));
           EvListPlaylist (PLAYLIST_URL cfg);
           EvLog ERROR (match e with
                        | ValueError _ => MsgInvalid (str e)
                        | Exception _ => MsgPlaylistError (str e)
                        end)])%list.
Proof.
  intros Emk Ei Hm El.
  rewrite (main_until_playlist env cfg w w0 yt_api w1 t1 None w2 _ Emk Ei
             (fetch_playlist_unlisted env _ _ _ _ Hm El)).
  cbn [value world trace mret M_ret ret]. now rewrite app_nil_r.
Qed.

Lemma main_without_playlist_witness :
  value (main Scenario2.unlisted_env Sim.default_config (Sim.start ∅ 100))
  = inr tt
  /\ reported (trace (main Scenario2.unlisted_env Sim.default_config
                        (Sim.start ∅ 100))) = None.
Proof.
  rewrite (main_without_playlist Scenario2.unlisted_env Sim.default_config
             (Sim.start ∅ 100) (Sim.start ∅ 100) ApiDirect (Sim.start ∅ 100)
             [EvLog INFO MsgApiNoProxy; EvLog WARNING MsgRateLimitNote;
              EvNewApi]
             (Exception "HTTP Error 404") (Sim.start ∅ 100)
             eq_refl eq_refl eq_refl eq_refl).
  split; reflexivity.
Defined.

(** X15. An empty playlist: [main] runs to the end, the summary reports
    four zeros and has no line for the success rate, whose quotient is
    not computed. *)
Theorem main_on_empty_playlist {W : Type} (env : Env W) (cfg : Config)
    (w w0 : W) (yt_api : YtApi) (w1 : W) (t1 : list event) (w2 : W) :
  makedirs env (OUTPUT_FOLDER cfg) w = (inr tt, w0) ->
  initialize_api env cfg w0 = Outcome (inr (Some yt_api)) w1 t1 ->
  Re.match_ (unicode_alnum env) playlist_pattern (PLAYLIST_URL cfg) = true ->
  playlist_videos env (PLAYLIST_URL cfg) w1 = (inr [], w2) ->
  main env cfg w
  = Outcome (inr tt) w2
      ([EvLog INFO (MsgRule false "="); EvLog INFO MsgBanner;
        EvLog INFO (MsgRule false "="); EvMakedirs (OUTPUT_FOLDER cfg);
        EvLog INFO (MsgOutputDir (OUTPUT_FOLDER cfg))]
       ++ t1
       ++ [EvLog INFO (MsgFetchingPlaylist (PLAYLIST_URL cfg));
           EvListPlaylist (PLAYLIST_URL cfg);
           EvLog INFO (MsgFound 0);
           EvLog INFO MsgStarting; EvLog INFO (MsgRule false "-");
           EvLog INFO (MsgRule false "-");
           EvLog INFO (MsgRule true "="); EvLog INFO MsgSummaryHeader;
           EvLog INFO (MsgTotalVideos 0); EvLog INFO (MsgSuccessful 0);
           EvLog INFO (MsgSkipped 0); EvLog INFO (MsgFailed 0);
           EvLog INFO (MsgOutput (OUTPUT_FOLDER cfg));
           EvLog INFO (MsgRule false "="); EvLog INFO MsgComplete])%list.
Proof.
  intros Emk Ei Hm El.
  rewrite (main_until_playlist env cfg w w0 yt_api w1 t1 (Some []) w2 _
             Emk Ei (fetch_playlist_listed env _ _ _ _ Hm El)).
  reflexivity.
Qed.

Lemma main_on_empty_playlist_witness :
  reported (trace (main Scenario.down_env Sim.default_config
                     (Sim.start ∅ 100)))
  = Some {| total := 0; success := 0; skipped := 0; failed := 0 |}.
Proof.
  rewrite (main_on_empty_playlist Scenario.down_env Sim.default_config
             (Sim.start ∅ 100) (Sim.start ∅ 100) ApiDirect (Sim.start ∅ 100)
             [EvLog INFO MsgApiNoProxy; EvLog WARNING MsgRateLimitNote;
              EvNewApi]
             (Sim.start ∅ 100) eq_refl eq_refl eq_refl eq_refl).
  reflexivity.
Defined.

(* ================================================================== *)
(** * A run without the transcript service *)

Section ServiceDown.
Context {W : Type}.
Variable env : Env W.
Variable cfg : Config.
Hypothesis down : forall api v langs w,
  exists e w', api_fetch env api v langs w = (inl e, w').

Lemma fetch_retry_down yt_api video max_retries w r :
  value (fetch_transcript_with_retry env cfg yt_api video max_retries w)
  = inr r ->
  r = None.
Proof.
  rewrite fetch_retry_unfold. cbn [value]. unfold range.
  destruct (value (for_return _ _ w)) as [e|r0] eqn:E; [discriminate|].
  intros [= <-]. eapply loop_down; eassumption.
Qed.

Lemma process_video_down_no_write yt_api video index total folder w :
  Forall (fun ev => is_write ev = false)
    (trace (process_video env cfg yt_api video index total folder w)).
Proof.
  unfold process_video. apply trace_try.
  - unfold process_video_try.
    apply trace_bind; [constructor|]. intros t _.
    apply trace_bind; [apply trace_call; reflexivity|]. intros [|] _.
    + trace_steps; reflexivity.
    + apply trace_bind; [repeat constructor|]. intros _ _.
      apply trace_bind.
      * unfold fetch_transcript_with_retry, retry_body, fetch, sleep.
        trace_steps; reflexivity.
      * intros r Hr. rewrite (fetch_retry_down _ _ _ _ _ Hr).
        constructor.
  - intros e _. trace_steps; reflexivity.
Qed.

(** The video is reported as done only if its file was found. *)
Lemma process_video_down_true yt_api video index total folder w :
  value (process_video env cfg yt_api video index total folder w) = inr true ->
  exists t, title video = inr t
            /\ fst (path_exists env (target folder (video_id video) t) w)
               = true.
Proof.
  intros Hv.
  destruct (process_video_true_title _ _ _ _ _ _ _ _ Hv) as [t Et].
  exists t. split; [exact Et|].
  destruct (path_exists env (target folder (video_id video) t) w)
    as [[|] w1] eqn:Ex; [reflexivity|]. exfalso.
  assert (Hfalse : value (process_video env cfg yt_api video index total
                            folder w) = inr false).
  { destruct (value (process_video_try env cfg yt_api video index total
                       folder w)) as [e|b] eqn:Etry.
    - now rewrite (process_video_caught _ _ _ _ _ _ _ _ _ Etry).
    - rewrite (process_video_passed _ _ _ _ _ _ _ _ _ Etry), Etry.
      revert Etry. unfold process_video_try.
      rewrite (run_bind_inr _ _ w w t []) by (unfold lift; now rewrite Et).
      fold (target folder (video_id video) t).
      rewrite (run_bind_inr _ _ w w1 false
                 [EvExists (target folder (video_id video) t)])
        by (unfold exists_, call; now rewrite Ex).
      cbn [value world trace].
      rewrite (run_bind_inr _ _ w1 w1 tt
                 [EvLog INFO (MsgProcessing index total
                                (take 50 (sanitize_filename t)))])
        by reflexivity.
      cbn [value world trace].
      destruct (fetch_transcript_with_retry env cfg yt_api (video_id video)
                  None w1) as [[e|r] w2 t2] eqn:Ef.
      + now rewrite (run_bind_inl _ _ _ _ _ _ Ef).
      + assert (Hr : r = None)
          by (apply (fetch_retry_down yt_api (video_id video) None w1);
              now rewrite Ef).
        subst r. rewrite (run_bind_inr _ _ _ _ _ _ Ef).
        cbn [value world trace mret M_ret ret]. now intros [= <-]. }
  rewrite Hfalse in Hv. discriminate.
Qed.

End ServiceDown.

(** As [trace_steps], with a first step of one's own for the functions
    that have a lemma. *)
Ltac trace_steps_with known :=
  repeat first
    [ known
    | apply trace_bind; [|intros ? ?]
    | apply trace_try; [|intros ? ?]
    | apply trace_call
    | apply trace_for_return; intros ? ?
    | apply trace_for_fold; intros ? ? ?
    | match goal with
      | |- Forall _ (trace (ret _ _)) => constructor
      | |- Forall _ (trace (mret _ _)) => constructor
      | |- Forall _ (trace (raise _ _)) => constructor
      | |- Forall _ (trace (lift _ _)) => constructor
      | |- Forall _ (trace (log _ _ _)) => repeat constructor
      | |- Forall _ (trace (emit _ _)) => repeat constructor
      | |- Forall _ (trace ((if ?b then _ else _) _)) => destruct b
      | |- Forall _ (trace (match ?x with _ => _ end _)) => destruct x
      end ].

(** X16. While every fetch raises, a run of [main] writes no file, and
    [process_video] reports a video as done only when it found its file:
    every other video is a failure. *)
Theorem service_down_writes_nothing {W : Type} (env : Env W) (cfg : Config)
    (w : W) :
  (forall api v langs w0,
      exists e w', api_fetch env api v langs w0 = (inl e, w')) ->
  Forall (fun ev => is_write ev = false) (trace (main env cfg w))
  /\ forall yt_api video index n_videos folder w0,
       value (process_video env cfg yt_api video index n_videos folder w0)
       = inr true ->
       exists t, title video = inr t
                 /\ fst (path_exists env
                           (target folder (video_id video) t) w0) = true.
Proof.
  intros Hdown. split.
  - unfold main, main_loop, main_body, initialize_api, fetch_playlist,
      print_summary, exists_, getmtime_, time_.
    trace_steps_with ltac:(apply (process_video_down_no_write env cfg Hdown));
      reflexivity.
  - intros yt_api video index n_videos folder w0 Hv.
    exact (process_video_down_true env cfg Hdown _ _ _ _ _ _ Hv).
Qed.

Lemma service_down_writes_nothing_witness :
  Forall (fun ev => is_write ev = false)
    (trace (main Scenario2.down_three_env Sim.default_config
              (Sim.start (Scenario.folder_with 3) 100))).
Proof.
  apply (service_down_writes_nothing Scenario2.down_three_env
           Sim.default_config (Sim.start (Scenario.folder_with 3) 100)).
  intros api v langs w0. eexists _, _. reflexivity.
Defined.

(* ================================================================== *)
(** * When main raises *)

Section Returns.
Context {W : Type}.

Lemma returns_bind {A B} (m : M W A) (k : A -> M W B) (w : W) :
  returns m w ->
  (forall a, value (m w) = inr a -> returns (k a) (world (m w))) ->
  returns (m ≫= k) w.
Proof.
  intros [a Ha] Hk. specialize (Hk a Ha). unfold returns in *.
  destruct (m w) as [r w1 t1] eqn:E. cbn [value world] in *. subst r.
  rewrite (run_bind_inr _ _ _ _ _ _ E). exact Hk.
Qed.

Lemma returns_log lvl msg (w : W) : returns (log lvl msg) w.
Proof. now exists tt. Qed.

(** When the code raises, every event it has caused satisfies [P]. *)
Lemma raised_bind (P : event -> Prop) {A B} (m : M W A) (k : A -> M W B)
    (w : W) :
  Forall P (trace (m w)) ->
  (forall a, value (m w) = inr a ->
     forall e, value (k a (world (m w))) = inl e ->
               Forall P (trace (k a (world (m w))))) ->
  forall e, value ((m ≫= k) w) = inl e -> Forall P (trace ((m ≫= k) w)).
Proof.
  intros Hm Hk e.
  destruct (m w) as [[e1|a] w1 t1] eqn:E; cbn [value world trace] in *.
  - rewrite (run_bind_inl _ _ _ _ _ _ E). intros _. exact Hm.
  - rewrite (run_bind_inr _ _ _ _ _ _ E). cbn [value trace]. intros He.
    apply Forall_app. split; [exact Hm|]. exact (Hk a eq_refl e He).
Qed.

End Returns.

Section MainRaises.
Context {W : Type}.
Variable env : Env W.
Variable cfg : Config.

Lemma print_summary_returns stats (w : W) :
  print_summary cfg stats w
  = Outcome (inr tt) w (trace (print_summary cfg stats w)).
Proof.
  destruct (print_summary_trace cfg stats w) as [more H]. now rewrite H.
Qed.

(** After the loop nothing can raise. *)
Lemma main_end_returns stats (w : W) :
  returns (log INFO (MsgRule false "-");; print_summary cfg stats;;
           log INFO MsgComplete) w.
Proof.
  apply returns_bind; [apply returns_log|]. intros _ _.
  apply returns_bind; [|intros _ _; apply returns_log].
  exists tt. now rewrite print_summary_returns.
Qed.

(** When [main] raises, it has not logged a counter of the summary. *)
Lemma main_raised_no_counter w e :
  value (main env cfg w) = inl e ->
  Forall (fun ev => is_counter ev = false) (trace (main env cfg w)).
Proof.
  unfold main. revert e.
  do 3 (apply raised_bind; [repeat constructor | intros _ _]).
  apply raised_bind; [apply trace_call; reflexivity | intros _ _].
  apply raised_bind; [repeat constructor | intros _ _].
  apply raised_bind.
  { eapply Forall_impl; [apply initialize_api_setup|].
    intros ev Hev. apply summary_counter. unfold is_setup in Hev.
    destruct (is_summary ev); [|reflexivity].
    rewrite orb_true_r in Hev. discriminate. }
  intros [yt_api|] _; [|discriminate].
  apply raised_bind.
  { eapply Forall_impl; [apply fetch_playlist_no_summary|].
    apply summary_counter. }
  intros [videos|] _; [|discriminate].
  do 2 (apply raised_bind; [repeat constructor | intros _ _]).
  apply raised_bind.
  { eapply Forall_impl; [apply main_loop_no_summary|].
    apply summary_counter. }
  intros stats _ e He. exfalso.
  match type of He with
  | value (_ ?w0) = _ => destruct (main_end_returns stats w0) as [a Ha]
  end.
  rewrite Ha in He. discriminate.
Qed.

End MainRaises.

(** X17. The guarded call at the end of the file lets no exception out:
    when [main] raises, the error is logged as unexpected after what
    [main] did, and no counter of the summary has been logged. *)
Theorem script_catches {W : Type} (env : Env W) (cfg : Config) (w : W) :
  value (script env cfg w) = inr tt
  /\ forall e,
       value (main env cfg w) = inl e ->
       trace (script env cfg w)
       = (trace (main env cfg w) ++ [EvLog ERROR (MsgUnexpected (str e))])%list
       /\ reported (trace (script env cfg w)) = None.
Proof.
  unfold script.
  destruct (main env cfg w) as [[e|[]] w1 t1] eqn:E.
  - rewrite (run_try_inl _ _ _ _ _ _ E). cbn [value trace].
    split; [reflexivity|]. intros e' [= <-]. split; [reflexivity|].
    apply reported_none. apply Forall_app. split; [|repeat constructor].
    pose proof (main_raised_no_counter env cfg w e) as H.
    rewrite E in H. now apply H.
  - rewrite (run_try_inr _ _ _ _ _ _ E). cbn [value].
    split; [reflexivity|]. discriminate.
Qed.

Lemma script_catches_witness :
  trace (script Scenario2.read_only_env Sim.default_config (Sim.start ∅ 100))
  = [EvLog INFO (MsgRule false "="); EvLog INFO MsgBanner;
     EvLog INFO (MsgRule false "="); EvMakedirs "transcripts";
     EvLog ERROR (MsgUnexpected "PermissionError")]
  /\ reported (trace (script Scenario2.read_only_env Sim.default_config
                        (Sim.start ∅ 100))) = None.
Proof.
  apply (proj2 (script_catches Scenario2.read_only_env Sim.default_config
                  (Sim.start ∅ 100)) (Exception "PermissionError")).
  reflexivity.
Defined.

Lemma main_body_getmtime_raised {W : Type} (env : Env W) (cfg : Config)
    (yt_api : YtApi) (n_videos : Z) (stats : DownloadStats) (index : Z)
    (video : Video) (w : W) (t : string) (w2 : W) (e : exn) (w3 : W) :
  value (process_video env cfg yt_api video index n_videos
           (OUTPUT_FOLDER cfg) w) = inr true ->
  title video = inr t ->
  path_exists env (target (OUTPUT_FOLDER cfg) (video_id video) t)
    (world (process_video env cfg yt_api video index n_videos
              (OUTPUT_FOLDER cfg) w)) = (true, w2) ->
  getmtime env (target (OUTPUT_FOLDER cfg) (video_id video) t) w2
    = (inl e, w3) ->
  main_body env cfg yt_api n_videos stats (index, video) w
  = Outcome (inl e) w3
      (trace (process_video env cfg yt_api video index n_videos
                (OUTPUT_FOLDER cfg) w)
       ++ [EvExists (target (OUTPUT_FOLDER cfg) (video_id video) t);
           EvGetmtime (target (OUTPUT_FOLDER cfg) (video_id video) t)])%list.
Proof.
  intros Ho Et Ex Em. unfold main_body.
  destruct (process_video env cfg yt_api video index n_videos
              (OUTPUT_FOLDER cfg) w) as [r w1 t1] eqn:E.
  cbn [value world trace] in *. subst r.
  rewrite (run_bind_inr _ _ _ _ _ _ E). cbn [value world trace].
  rewrite (run_bind_inr _ _ w1 w1 t []) by (unfold lift; now rewrite Et).
  fold (target (OUTPUT_FOLDER cfg) (video_id video) t).
  rewrite (run_bind_inr _ _ w1 w2 true
             [EvExists (target (OUTPUT_FOLDER cfg) (video_id video) t)])
    by (unfold exists_, call; now rewrite Ex).
  cbn [value world trace].
  rewrite (run_bind_inl _ _ w2 w3 e
             [EvGetmtime (target (OUTPUT_FOLDER cfg) (video_id video) t)])
    by (unfold getmtime_, call; now rewrite Em).
  reflexivity.
Qed.

(** X19. A file that disappears between os.path.exists and
    os.path.getmtime in [main]: the exception of getmtime is not caught,
    it ends the loop, and the videos that follow are not processed. *)
Theorem main_loop_stops_on_getmtime {W : Type} (env : Env W) (cfg : Config)
    (yt_api : YtApi) (n_videos : Z) (stats : DownloadStats) (index : Z)
    (video : Video) (rest : list (Z * Video)) (w : W) (t : string)
    (w2 : W) (e : exn) (w3 : W) :
  let o := process_video env cfg yt_api video index n_videos
             (OUTPUT_FOLDER cfg) w in
  let path := target (OUTPUT_FOLDER cfg) (video_id video) t in
  value o = inr true ->
  title video = inr t ->
  path_exists env path (world o) = (true, w2) ->
  getmtime env path w2 = (inl e, w3) ->
  for_fold ((index, video) :: rest) (main_body env cfg yt_api n_videos)
    stats w
  = Outcome (inl e) w3 (trace o ++ [EvExists path; EvGetmtime path])%list.
Proof.
  intros o path Ho Et Ex Em. subst o path.
  rewrite for_fold_cons. apply run_bind_inl.
  exact (main_body_getmtime_raised env cfg yt_api n_videos stats index video
           w t w2 e w3 Ho Et Ex Em).
Qed.

Lemma main_loop_stops_on_getmtime_witness :
  value (main_loop Scenario2.vanishing_env Sim.default_config ApiDirect
           [Scenario.video_a; Scenario.video_c]
           (Sim.start (Scenario.folder_with 3) 100))
  = inl (Exception "FileNotFoundError").
Proof.
  unfold main_loop. cbn [enumerate length].
  rewrite (main_loop_stops_on_getmtime Scenario2.vanishing_env
             Sim.default_config ApiDirect 2 _ 1 Scenario.video_a
             [(2, Scenario.video_c)]
             (Sim.start (Scenario.folder_with 3) 100) "Intro: part 1/2"
             (Sim.State (Scenario.folder_with 3) 100 0 2)
             (Exception "FileNotFoundError")
             (Sim.State (Scenario.folder_with 3) 100 0 2));
    vm_compute; reflexivity.
Defined.

(* ================================================================== *)
(** * How much a run asks and writes *)

Section Counting.
Context {W : Type}.
Variable kind : event -> bool.






End Counting.

Section Budget.
Context {W : Type}.
Variable env : Env W.
Variable cfg : Config.





End Budget.


(* ================================================================== *)
(** * The success rate of the summary *)

Section Rate.
Context {W : Type}.
Variable env : Env W.
Variable cfg : Config.

(** No counter goes down in a pass through the body of the loop. *)
Lemma main_body_grows yt_api n_videos stats iv w stats' :
  value (main_body env cfg yt_api n_videos stats iv w) = inr stats' ->
  success stats <= success stats' /\ skipped stats <= skipped stats'
  /\ failed stats <= failed stats'.
Proof.
  destruct iv as [i video].
  destruct (process_video_no_raise env cfg yt_api video i n_videos
              (OUTPUT_FOLDER cfg) w) as [[|] Hb].
  - destruct (process_video_true_title _ _ _ _ _ _ _ _ Hb) as [t Et].
    destruct (path_exists env (target (OUTPUT_FOLDER cfg) (video_id video) t)
                (world (process_video env cfg yt_api video i n_videos
                          (OUTPUT_FOLDER cfg) w))) as [[|] w2] eqn:Ex.
    + destruct (getmtime env
                  (target (OUTPUT_FOLDER cfg) (video_id video) t) w2)
        as [[e|mod_time] w3] eqn:Em.
      * rewrite (main_body_getmtime_raised _ _ _ _ _ _ _ _ _ _ _ _
                   Hb Et Ex Em).
        discriminate.
      * destruct (time_now env w3) as [now w4] eqn:En.
        rewrite (main_body_classified _ _ _ _ _ _ _ _ _ _ _ _ _ _
                   Hb Et Ex Em En).
        cbn [value].
        destruct (Qlt_le_dec _ _); intros [= <-]; simpl; lia.
    + rewrite (main_body_vanished _ _ _ _ _ _ _ _ _ _ Hb Et Ex).
      cbn [value]. intros [= <-]. lia.
  - rewrite (main_body_failed _ _ _ _ _ _ _ _ Hb). cbn [value].
    intros [= <-]. simpl. lia.
Qed.


Lemma main_loop_grows xs : forall yt_api n_videos stats w stats',
  value (for_fold xs (main_body env cfg yt_api n_videos) stats w)
  = inr stats' ->
  success stats <= success stats' /\ skipped stats <= skipped stats'
  /\ failed stats <= failed stats'.
Proof.
  induction xs as [|iv xs IH]; intros yt_api n_videos stats w stats'.
  - simpl. intros [= <-]. lia.
  - rewrite for_fold_cons.
    destruct (main_body env cfg yt_api n_videos stats iv w)
      as [[e|stats1] w1 t1] eqn:E1.
    + rewrite (run_bind_inl (W := W) _ _ _ _ _ _ E1). discriminate.
    + rewrite (run_bind_inr (W := W) _ _ _ _ _ _ E1). cbn [value].
      intros H. apply IH in H.
      assert (E1' : value (main_body env cfg yt_api n_videos stats iv w)
                    = inr stats1) by now rewrite E1.
      apply main_body_grows in E1'. lia.
Qed.

(** The rate that [print_summary] logs for counters within their total. *)
Lemma print_summary_rate stats (w : W) :
  0 <= success stats -> 0 <= skipped stats ->
  success stats + skipped stats <= total stats ->
  Forall rate_in_range (trace (print_summary cfg stats w)).
Proof.
  intros Hs Hk Ht.
  unfold print_summary, log, emit, mbind, M_bind, bind, mret, M_ret, ret.
  destruct (0 <? total stats)%Z eqn:Epos; simpl;
    repeat (constructor; [exact I|]); [|constructor].
  constructor; [|repeat (constructor; [exact I|]); constructor].
  apply Z.ltb_lt in Epos. simpl.
  assert (Hpos : (0 < inject_Z (total stats))%Q)
    by now rewrite <- (Zlt_Qlt 0).
  assert (Hnum : (0 <= inject_Z (success stats + skipped stats))%Q)
    by (rewrite <- (Zle_Qle 0); lia).
  assert (Hle : (inject_Z (success stats + skipped stats)
                 <= inject_Z (total stats))%Q)
    by now rewrite <- Zle_Qle.
  split.
  - apply Qmult_le_0_compat; [|discriminate].
    apply Qle_shift_div_l; [exact Hpos|]. now rewrite Qmult_0_l.
  - apply Qle_trans with (1 * 100)%Q; [|unfold Qle; simpl; lia].
    apply Qmult_le_compat_r; [|discriminate].
    apply Qle_shift_div_r; [exact Hpos|]. now rewrite Qmult_1_l.
Qed.

End Rate.

(** X21. The success rate of the summary, when there is one, is a
    percentage: between 0 and 100, whatever the run was. *)
Theorem success_rate_is_percentage {W : Type} (env : Env W) (cfg : Config)
    (w : W) :
  Forall rate_in_range (trace (main env cfg w)).
Proof.
  unfold main.
  do 3 (apply trace_bind; [repeat constructor | intros _ _]).
  apply trace_bind; [apply trace_call; exact I | intros _ _].
  apply trace_bind; [repeat constructor | intros _ _].
  apply trace_bind.
  { unfold initialize_api. trace_steps; exact I. }
  intros [yt_api|] _; [|constructor].
  apply trace_bind.
  { unfold fetch_playlist. trace_steps; exact I. }
  intros [videos|] _; [|constructor].
  do 2 (apply trace_bind; [repeat constructor | intros _ _]).
  apply trace_bind.
  { unfold main_loop, main_body, process_video, process_video_try,
      fetch_transcript_with_retry, retry_body, exists_, getmtime_, time_,
      write, fetch, sleep.
    trace_steps; exact I. }
  intros stats Hstats.
  apply trace_bind; [repeat constructor | intros _ _].
  apply trace_bind; [|intros _ _; repeat constructor].
  pose proof (main_loop_counts _ _ _ _ _ _ Hstats) as [Htotal Hsum].
  unfold main_loop in Hstats. apply main_loop_grows in Hstats.
  simpl in Hstats. apply print_summary_rate; lia.
Qed.

(* ================================================================== *)
(** * The pause and the five seconds, on the reference world *)

Section Pause.
Variable service :
  nat -> YtApi -> string -> option (list string) -> result transcript.
Variable listing : string -> result (list Video).
Variable cfg : Config.

Local Abbreviation env := (Sim.sim_env service listing Sim.alone).


End Pause.


